(** * ERCOT public-data clients: a shallow embedding and its properties

    The development follows the two Python clients of the repository:
    - [ercot_api/client.py]: [ErcotPublicDataClient] (API-key placement,
      bearer token, sliding-window rate limiter, pagination helper and the
      archive download loop [update_archive]);
    - [ercot/pubapi_client.py]: [PubApiClient] (operation-driven [call]).

    Python dictionaries are finite maps ([gmap]), sets are [gset], optional
    values are [option]; an exception is an explicit [Raise] result.
    External collaborators (HTTP session, monotonic clock, file system, ZIP
    decoding) are explicit state: a queue of canned responses, a list of clock
    readings, a map from directories to their entries. *)

From Stdlib Require Import Ascii.
From stdpp Require Import gmap strings list fin_maps pretty sorting.

Open Scope Z_scope.
Set Warnings "-register-all".

(** ** Python values and exceptions *)

Module Py.

(** The values that travel through [Dict[str, Any]] arguments.  [PObj s]
    is any other object (a parsed JSON structure, say), known by the text
    [str()] gives for it; it is never [None]. *)
Inductive pyval :=
| PNone
| PBool (b : bool)
| PInt (z : Z)
| PStr (s : string)
| PObj (str_form : string).

#[export] Instance pyval_eq_dec : EqDecision pyval.
Proof. solve_decision. Defined.

(** [v is None] *)
Definition is_None (v : pyval) : bool :=
  match v with PNone => true | _ => false end.

(** [str(v)], which is also [format(v, "")] *)
Definition str (v : pyval) : string :=
  match v with
  | PNone => "None"
  | PBool true => "True"
  | PBool false => "False"
  | PInt z => pretty z
  | PStr s => s
  | PObj s => s
  end.

(** Truth value of an [Optional[str]]: [None] and [""] are falsy. *)
Definition truthy (o : option string) : bool :=
  match o with
  | Some s => negb (String.eqb s "")
  | None => false
  end.

Inductive exn :=
| KeyError (msg : string)
| ValueError (msg : string)
| RuntimeError (msg : string)
| IndexError
| HTTPError (status : Z)
| ConnectionError
| JSONDecodeError
| BadZipFile
| FileExistsError (path : string)
| FileNotFoundError (path : string).

Inductive result (A : Type) :=
| Return (a : A)
| Raise (e : exn).
Arguments Return {A} a.
Arguments Raise {A} e.

(** [sep.join(parts)] *)
Fixpoint join (sep : string) (parts : list string) : string :=
  match parts with
  | [] => ""
  | [p] => p
  | p :: rest => p +:+ sep +:+ join sep rest
  end.

(** [s.rstrip('/')] and [s.lstrip('/')] *)
Fixpoint lstrip_slash (s : string) : string :=
  match s with
  | String "/"%char rest => lstrip_slash rest
  | _ => s
  end.

Fixpoint rstrip_slash (s : string) : string :=
  match s with
  | EmptyString => EmptyString
  | String c rest =>
      match rstrip_slash rest with
      | EmptyString => if Ascii.eqb c "/"%char then EmptyString else String c EmptyString
      | kept => String c kept
      end
  end.

(** [Response.raise_for_status()] raises on 4xx and 5xx. *)
Definition raises_for_status (status : Z) : bool :=
  bool_decide (400 ≤ status < 600).

End Py.
Import Py.

(** ** The sliding-window rate limiter ([_wait_for_rate_limit])

  The deque [_rate_limit_timestamps] is a list, oldest first.  The clock
  type is left open: the limiter only subtracts, adds and compares
  readings of [time.monotonic()]. *)

Module RateLimiter.
Section limiter.
Context {time : Type}.
Variable le_time : time → time → bool.
Variable add_time sub_time : time → time → time.

(** [while ts and ts[0] <= cutoff: ts.popleft()] *)
Fixpoint popleft_expired (cutoff : time) (ts : list time) : list time :=
  match ts with
  | [] => []
  | oldest :: rest =>
      if le_time oldest cutoff then popleft_expired cutoff rest else ts
  end.

Inductive verdict :=
| Admit
| Sleep (sleep_for : time)
| EmptyDeque.

(** One pass through the body of [with self._rate_limit_lock:], with the
    reading [now] of the clock. *)
Definition locked_check (limit : Z) (window now : time) (ts : list time)
  : verdict * list time :=
  let cutoff := sub_time now window in
  let ts := popleft_expired cutoff ts in
  if bool_decide (Z.of_nat (length ts) < limit) then (Admit, ts ++ [now])
  else match ts with
       | oldest :: _ => (Sleep (sub_time (add_time oldest window) now), ts)
       | [] => (EmptyDeque, ts)
       end.

Inductive waited :=
| Returned
| StillWaiting
| Failed.

(** [while True:] one clock reading per iteration; [StillWaiting] when the
    readings given are used up before a slot is free. *)
Fixpoint wait_loop (limit : Z) (window : time) (clock ts : list time)
  : waited * list time * list time :=
  match clock with
  | [] => (StillWaiting, ts, [])
  | now :: later =>
      match locked_check limit window now ts with
      | (Admit, ts') => (Returned, ts', later)
      | (Sleep _, ts') => wait_loop limit window later ts'
      | (EmptyDeque, ts') => (Failed, ts', later)
      end
  end.

(** [if not limit or limit <= 0: return] *)
Definition no_limit (limit : option Z) : bool :=
  match limit with
  | None => true
  | Some l => bool_decide (l = 0) || bool_decide (l ≤ 0)
  end.

Definition _wait_for_rate_limit (limit : option Z) (window : time)
    (clock ts : list time) : waited * list time * list time :=
  match limit with
  | None => (Returned, ts, clock)
  | Some l =>
      if no_limit limit then (Returned, ts, clock)
      else wait_loop l window clock ts
  end.

(** The deque after each of a series of calls; call [i] sees the clock
    readings [nth i calls]. *)
Fixpoint deque_history (limit : option Z) (window : time)
    (calls : list (list time)) (ts : list time) : list (list time) :=
  match calls with
  | [] => []
  | clock :: rest =>
      let ts' := (_wait_for_rate_limit limit window clock ts).1.2 in
      ts' :: deque_history limit window rest ts'
  end.

(** How each of a series of calls ended, with the same conventions. *)
Fixpoint outcome_history (limit : option Z) (window : time)
    (calls : list (list time)) (ts : list time) : list waited :=
  match calls with
  | [] => []
  | clock :: rest =>
      let r := _wait_for_rate_limit limit window clock ts in
      r.1.1 :: outcome_history limit window rest r.1.2
  end.

End limiter.
End RateLimiter.

(** ** [ErcotPublicDataClient] ([ercot_api/client.py]) *)

Module Ercot.

(** Readings of [time.monotonic()] and durations.  The limiter
    ([RateLimiter]) is generic in the type of the readings, which are
    floats in Python; the client below is run on whole clock ticks.  What
    is proved of the limiter is proved for every clock type, and what is
    proved of the client does not depend on the arithmetic of the
    readings. *)
Abbreviation time := Z.

Definition BASE1 : string := "https://api.ercot.com/api/public-reports".

Record ErcotClientConfig := {
  base_url : string;
  timeout : time;
  api_key : option string;
  api_key_in_query : bool;
  rate_limit_per_minute : option Z;
  rate_limit_window_seconds : time;
  token_url : string;
  client_id : string;
  scope : string;
}.

(** The class-level defaults of the dataclass. *)
Definition default_config : ErcotClientConfig := {|
  base_url := BASE1;
  timeout := 30;
  api_key := None;
  api_key_in_query := false;
  rate_limit_per_minute := Some 30;
  rate_limit_window_seconds := 60;
  token_url := "https://ercotb2c.b2clogin.com/" +:+
               "ercotb2c.onmicrosoft.com/" +:+
               "B2C_1_PUBAPI-ROPC-FLOW/oauth2/v2.0/token";
  client_id := "fec253ea-0d06-4272-a5e6-b478baeecd70";
  scope := "openid fec253ea-0d06-4272-a5e6-b478baeecd70 offline_access";
|}.

(** What [Session.request] and [Session.post] are called with. *)
Record request := {
  req_method : string;
  req_url : string;
  req_headers : gmap string string;
  req_params : gmap string pyval;
  req_json : option (gmap string pyval);
  req_timeout : time;
  req_stream : bool;
}.

(** A ZIP payload, or bytes that are no ZIP archive. *)
Inductive blob :=
| Raw (data : string)
| Archive (members : list (string * blob)).

(** [response.json()], seen through the keys the client reads: a key that
    is absent or [null] is [None]. *)
Record json_doc := {
  id_token : option string;
  bundles : option (list Z);
  totalPages : option Z;
  currentPage : option Z;
}.

Record response := {
  status_code : Z;
  json : option json_doc;
  content : blob;
}.

(** The HTTP session: the calls it has received, oldest first, and the
    answers it will give, in order.  [None] is a transport failure; so is
    a call made when no answer is left. *)
Record session := {
  requests : list request;
  responses : list (option response);
}.

Definition send (r : request) (s : session) : result response * session :=
  let log := requests s ++ [r] in
  match responses s with
  | Some resp :: later =>
      (Return resp, {| requests := log; responses := later |})
  | None :: later =>
      (Raise ConnectionError, {| requests := log; responses := later |})
  | [] => (Raise ConnectionError, {| requests := log; responses := [] |})
  end.

Record client := {
  config : ErcotClientConfig;
  _id_token : option string;
  _rate_limit_timestamps : list time;
  _session : session;
  monotonic : list time;
}.

(** [x or default] on an optional string *)
Definition or_default (x : option string) (d : string) : string :=
  match x with
  | Some s => if String.eqb s "" then d else s
  | None => d
  end.

(** [__init__]: [session] and [clock] are the collaborators handed in. *)
Definition new_client (api_key : option string) (base_url : option string)
    (timeout : time) (api_key_in_query : bool)
    (rate_limit_per_minute : option Z)
    (rate_limit_window_seconds : option time)
    (token_url client_id scope : option string)
    (sess : session) (clock : list time) : client := {|
  config := {|
    base_url := or_default base_url (Ercot.base_url default_config);
    timeout := timeout;
    api_key := api_key;
    api_key_in_query := api_key_in_query;
    rate_limit_per_minute :=
      match rate_limit_per_minute with
      | Some l => Some l
      | None => Ercot.rate_limit_per_minute default_config
      end;
    rate_limit_window_seconds :=
      default (Ercot.rate_limit_window_seconds default_config)
              rate_limit_window_seconds;
    token_url := or_default token_url (Ercot.token_url default_config);
    client_id := or_default client_id (Ercot.client_id default_config);
    scope := or_default scope (Ercot.scope default_config);
  |};
  _id_token := None;
  _rate_limit_timestamps := [];
  _session := sess;
  monotonic := clock;
|}.

Definition _headers (c : client) : gmap string string :=
  let headers : gmap string string := ∅ in
  let headers :=
    if truthy (api_key (config c)) && negb (api_key_in_query (config c))
    then <["Ocp-Apim-Subscription-Key" := default "" (api_key (config c))]> headers
    else headers in
  if truthy (_id_token c)
  then <["Authorization" := "Bearer " +:+ default "" (_id_token c)]> headers
  else headers.

Definition _query_api_key (c : client) (params : option (gmap string pyval))
  : gmap string pyval :=
  let params := default ∅ params in
  if truthy (api_key (config c)) && api_key_in_query (config c)
  then <["subscription-key" := PStr (default "" (api_key (config c)))]> params
  else params.

(** [_request]: wait for a slot, send, [raise_for_status].  The result is
    [None] while the limiter is still waiting for clock readings. *)
Definition _request (method path : string)
    (params : option (gmap string pyval))
    (json : option (gmap string pyval)) (stream : bool) (c : client)
  : option (result response) * client :=
  let '(w, ts, clock) :=
    RateLimiter._wait_for_rate_limit Z.leb Z.add Z.sub
      (rate_limit_per_minute (config c))
      (rate_limit_window_seconds (config c))
      (monotonic c) (_rate_limit_timestamps c) in
  let c1 := {| config := config c; _id_token := _id_token c;
               _rate_limit_timestamps := ts; _session := _session c;
               monotonic := clock |} in
  match w with
  | RateLimiter.StillWaiting => (None, c1)
  | RateLimiter.Failed => (Some (Raise IndexError), c1)
  | RateLimiter.Returned =>
      let url := rstrip_slash (base_url (config c)) +:+ "/" +:+ lstrip_slash path in
      let req := {| req_method := method; req_url := url;
                    req_headers := _headers c1;
                    req_params := _query_api_key c1 params;
                    req_json := json;
                    req_timeout := timeout (config c);
                    req_stream := stream |} in
      let '(r, sess) := send req (_session c1) in
      let c2 := {| config := config c; _id_token := _id_token c;
                   _rate_limit_timestamps := ts; _session := sess;
                   monotonic := clock |} in
      match r with
      | Raise e => (Some (Raise e), c2)
      | Return resp =>
          if raises_for_status (status_code resp)
          then (Some (Raise (HTTPError (status_code resp))), c2)
          else (Some (Return resp), c2)
      end
  end.

(** [urllib.parse.quote_plus]: letters, digits and [_.-~] stay, a space
    becomes [+], any other byte becomes [%XX]. *)
Definition always_safe (c : ascii) : bool :=
  let n := N_of_ascii c in
  (bool_decide (48 ≤ n ≤ 57) || bool_decide (65 ≤ n ≤ 90) ||
   bool_decide (97 ≤ n ≤ 122) ||
   Ascii.eqb c "_" || Ascii.eqb c "." || Ascii.eqb c "-" || Ascii.eqb c "~")%N.

Definition hex_digit (n : N) : ascii :=
  default "0"%char (String.get (N.to_nat n) "0123456789ABCDEF").

Fixpoint quote_plus (s : string) : string :=
  match s with
  | EmptyString => EmptyString
  | String c rest =>
      if always_safe c then String c (quote_plus rest)
      else if Ascii.eqb c " " then String "+" (quote_plus rest)
      else String "%" (String (hex_digit (N_of_ascii c / 16))
                      (String (hex_digit (N_of_ascii c mod 16)) (quote_plus rest)))
  end.

(** [urlencode(payload, quote_via=quote_plus)] *)
Definition urlencode (payload : list (string * string)) : string :=
  join "&" ((λ kv, quote_plus kv.1 +:+ "=" +:+ quote_plus kv.2) <$> payload).

(** [authenticate]: one POST to the token endpoint; the token is stored
    by the last assignment only. *)
Definition authenticate (username password : string) (c : client)
  : result string * client :=
  let payload := [("username", username); ("password", password);
                  ("grant_type", "password"); ("scope", scope (config c));
                  ("client_id", client_id (config c));
                  ("response_type", "id_token")] in
  let query := urlencode payload in
  let url := token_url (config c) +:+ "?" +:+ query in
  let req := {| req_method := "POST"; req_url := url;
                req_headers := {["Content-Type" := "application/x-www-form-urlencoded"]};
                req_params := ∅; req_json := None;
                req_timeout := timeout (config c); req_stream := false |} in
  let '(r, sess) := send req (_session c) in
  let c1 := {| config := config c; _id_token := _id_token c;
               _rate_limit_timestamps := _rate_limit_timestamps c;
               _session := sess; monotonic := monotonic c |} in
  match r with
  | Raise e => (Raise e, c1)
  | Return resp =>
      if raises_for_status (status_code resp)
      then (Raise (HTTPError (status_code resp)), c1)
      else match json resp with
           | None => (Raise JSONDecodeError, c1)
           | Some data =>
               let token := id_token data in
               if negb (truthy token)
               then (Raise (RuntimeError "Token response did not include id_token"), c1)
               else (Return (default "" token),
                     {| config := config c; _id_token := token;
                        _rate_limit_timestamps := _rate_limit_timestamps c;
                        _session := sess; monotonic := monotonic c |})
           end
  end.

Definition set_id_token (token : string) (c : client) : client :=
  {| config := config c; _id_token := Some token;
     _rate_limit_timestamps := _rate_limit_timestamps c;
     _session := _session c; monotonic := monotonic c |}.

(** *** [iter_report_pages]

    The generator keeps the locals [page] and [fetched].  Each call of
    [self._get_json] is answered by the next entry of [replies]. *)

Record pager := { page : Z; fetched : Z }.

Definition merged_params (params : option (gmap string pyval))
    (page_size : Z) (g : pager) : gmap string pyval :=
  <["size" := PInt page_size]> (<["page" := PInt (page g)]> (default ∅ params)).

(** From the statement after [yield data] to the end of the loop body:
    [None] is [return]. *)
Definition resume (max_pages : option Z) (data : json_doc) (g : pager)
  : option pager :=
  let fetched := fetched g + 1 in
  if match max_pages with
     | Some m => bool_decide (m ≤ fetched)
     | None => false
     end
  then None
  else match totalPages data, currentPage data with
       | Some total_pages, Some current_page =>
           if bool_decide (total_pages ≤ current_page + 1) then None
           else Some {| page := page g + 1; fetched := fetched |}
       | _, _ => None
       end.

(** What a full iteration over the generator observes: the requests made,
    the payloads yielded, and how it ended. *)
Record pages_run := {
  asked : list (string * gmap string pyval);
  yielded : list json_doc;
  ending : result unit;
}.

Fixpoint pages_from (path : string) (params : option (gmap string pyval))
    (page_size : Z) (max_pages : option Z) (g : pager)
    (replies : list (result json_doc)) : pages_run :=
  let ask := (path, merged_params params page_size g) in
  match replies with
  | [] => {| asked := [ask]; yielded := []; ending := Raise ConnectionError |}
  | Raise e :: _ => {| asked := [ask]; yielded := []; ending := Raise e |}
  | Return data :: later =>
      match resume max_pages data g with
      | None => {| asked := [ask]; yielded := [data]; ending := Return () |}
      | Some g' =>
          let r := pages_from path params page_size max_pages g' later in
          {| asked := ask :: asked r; yielded := data :: yielded r;
             ending := ending r |}
      end
  end.

Definition iter_report_pages (path : string)
    (params : option (gmap string pyval)) (page_size : Z)
    (max_pages : option Z) (replies : list (result json_doc)) : pages_run :=
  pages_from path params page_size max_pages {| page := 0; fetched := 0 |} replies.

(** *** [update_archive]

    The file system is a map from the directories that exist, each under
    the one normalised spelling of its path, to the files in them (a
    subdirectory is a directory of its own, not an entry of its parent).
    That is the disk as [update_archive] sees it for product ids that are
    [plain_product_id]s and downloads that are [plain_bundle]s; what is
    stated of the files extracted and deleted is stated for those.  Each
    call of
    [self.download_bundle] is answered by the next entry of [replies];
    [downloaded] records the calls and [printed] the lines written by
    [print]. *)

Record sync := {
  fs : gmap string (gmap string blob);
  replies : list (result blob);
  downloaded : list (string * list Z);
  printed : list string;
}.

Definition with_fs (fs' : gmap string (gmap string blob)) (st : sync) : sync :=
  {| fs := fs'; replies := replies st; downloaded := downloaded st;
     printed := printed st |}.

(** [print(line)] *)
Definition print (line : string) (st : sync) : sync :=
  {| fs := fs st; replies := replies st; downloaded := downloaded st;
     printed := printed st ++ [line] |}.

(** [self.download_bundle(product_id, doc_ids)] *)
Definition download_bundle (product_id : string) (doc_ids : list Z) (st : sync)
  : result blob * sync :=
  let called := downloaded st ++ [(product_id, doc_ids)] in
  match replies st with
  | [] => (Raise ConnectionError,
           {| fs := fs st; replies := []; downloaded := called;
              printed := printed st |})
  | r :: later => (r, {| fs := fs st; replies := later; downloaded := called;
                         printed := printed st |})
  end.

Definition save_dir (product_id : string) (report_id : Z) : string :=
  "/home/dell/code/ercot/ercot/data/" +:+ product_id +:+ "/" +:+
  product_id +:+ "_" +:+ pretty report_id.

(** [os.path.dirname] *)
Fixpoint through_last_slash (s : string) : option string :=
  match s with
  | EmptyString => None
  | String c rest =>
      match through_last_slash rest with
      | Some h => Some (String c h)
      | None => if Ascii.eqb c "/" then Some (String c EmptyString) else None
      end
  end.

Definition dirname (s : string) : string :=
  let head := default "" (through_last_slash s) in
  if String.eqb (rstrip_slash head) "" then head else rstrip_slash head.

(** [os.path.exists] *)
Definition exists_ (path : string) (d : gmap string (gmap string blob)) : bool :=
  bool_decide (is_Some (d !! path)).

(** [os.mkdir] *)
Definition mkdir (path : string) (d : gmap string (gmap string blob))
  : result (gmap string (gmap string blob)) :=
  if exists_ path d then Raise (FileExistsError path)
  else if exists_ (dirname path) d then Return (<[path := ∅]> d)
  else Raise (FileNotFoundError path).

(** A name that is one entry of its directory: not empty, not [.] or [..],
    without [/] and without a NUL byte.  [ZipFile.extractall] writes a
    member with such a name as one file of the target directory; for other
    names it makes subdirectories or changes the name. *)
Fixpoint no_slash_or_nul (s : string) : bool :=
  match s with
  | EmptyString => true
  | String c rest =>
      negb (Ascii.eqb c "/") && negb (Ascii.eqb c "000") && no_slash_or_nul rest
  end.

Definition plain_name (n : string) : bool :=
  negb (String.eqb n "") && negb (String.eqb n ".") && negb (String.eqb n "..") &&
  no_slash_or_nul n.

(** [ZipFile.extractall(dir)]: members are written in archive order.  This
    is [extractall] for archives whose member names are [plain_name]s
    ([plain_bundle] below); names with directories in them are outside
    this model of the disk. *)
Definition extractall (members : list (string * blob)) (dir : string)
    (d : gmap string (gmap string blob)) : gmap string (gmap string blob) :=
  foldl (λ d m, alter (insert m.1 m.2) dir d) d members.

(** [os.listdir] *)
Definition listdir (dir : string) (d : gmap string (gmap string blob))
  : list string :=
  (map_to_list (default ∅ (d !! dir))).*1.

(** [zipfile.ZipFile(os.path.join(dir, name), 'r')] *)
Definition open_zip (dir name : string) (d : gmap string (gmap string blob))
  : result (list (string * blob)) :=
  match d !! dir ≫= (.!! name) with
  | Some (Archive members) => Return members
  | Some (Raw _) => Raise BadZipFile
  | None => Raise (FileNotFoundError (dir +:+ "/" +:+ name))
  end.

(** [for filei in files: ... zip_ref.extractall(save_dir)] *)
Fixpoint extract_each (dir : string) (files : list string)
    (d : gmap string (gmap string blob))
  : result unit * gmap string (gmap string blob) :=
  match files with
  | [] => (Return (), d)
  | filei :: rest =>
      match open_zip dir filei d with
      | Return members => extract_each dir rest (extractall members dir d)
      | Raise e => (Raise e, d)
      end
  end.

(** [glob.glob] reads [*], [?] and [[] as pattern characters wherever they
    stand in the pattern, also in the directory part, which
    [update_archive] builds from the product id. *)
Fixpoint no_glob_magic (s : string) : bool :=
  match s with
  | EmptyString => true
  | String c rest =>
      negb (Ascii.eqb c "*") && negb (Ascii.eqb c "?") && negb (Ascii.eqb c "[") &&
      no_glob_magic rest
  end.

(** A product id that is one path component and has no pattern character:
    [save_dir] is then the one spelling of its directory, and the directory
    part of the [glob] pattern is taken literally. *)
Definition plain_product_id (product_id : string) : bool :=
  plain_name product_id && no_glob_magic product_id.

(** The names [glob.glob(dir + "/*.zip")] finds when [dir] has no pattern
    character ([plain_product_id]): the entries of [dir] that end in [.zip]
    and do not start with a dot.  A [dir] with pattern characters is
    outside this model. *)
Definition matches_zip (name : string) : bool :=
  String.prefix (String.rev ".zip") (String.rev name) &&
  negb (String.prefix "." name).

Definition glob_zip (dir : string) (d : gmap string (gmap string blob))
  : list string :=
  filter (λ n, matches_zip n = true) (listdir dir d).

(** [for file_path in glob.glob(...): os.remove(file_path); print(...)] *)
Definition remove_each (dir : string) (names : list string) (st : sync) : sync :=
  foldl (λ st n, print ("Deleted: " +:+ dir +:+ "/" +:+ n)
                   (with_fs (alter (delete n) dir (fs st)) st)) st names.

(** A download within the model of the disk: the member names of the
    archive and of the archives it holds are [plain_name]s, and no archive
    it holds has an entry under the name of a member of the download
    (extracting it would overwrite an archive that is open or still to be
    opened). *)
Definition plain_members (taken : list string) (members : list (string * blob))
  : bool :=
  forallb (λ m, plain_name m.1 && negb (bool_decide (m.1 ∈ taken))) members.

Definition plain_bundle (zip : blob) : bool :=
  match zip with
  | Raw _ => true
  | Archive members =>
      plain_members [] members &&
      forallb (λ m, match m.2 with
                    | Archive inner => plain_members members.*1 inner
                    | Raw _ => true
                    end) members
  end.

(** The body of [try:] for one attempt. *)
Definition try_body (product_id : string) (report_id : Z) (st : sync)
  : result unit * sync :=
  match download_bundle product_id [report_id] st with
  | (Raise e, st) => (Raise e, st)
  | (Return zip, st) =>
      let save_dir := save_dir product_id report_id in
      if negb (exists_ save_dir (fs st)) then
        match mkdir save_dir (fs st) with
        | Raise e => (Raise e, st)
        | Return d =>
            match zip with
            | Raw _ => (Raise BadZipFile, with_fs d st)
            | Archive members =>
                let d := extractall members save_dir d in
                let files := listdir save_dir d in
                match extract_each save_dir files d with
                | (Raise e, d) => (Raise e, with_fs d st)
                | (Return _, d) =>
                    (Return (),
                     remove_each save_dir (glob_zip save_dir d) (with_fs d st))
                end
            end
        end
      else (Return (), print (pretty report_id +:+ " already exist") st)
  end.

(** [while not done:] with the local [retry]; the result is the value of
    [done] when the loop is left.  [None]: the iterations allowed by [fuel]
    did not suffice. *)
Fixpoint while_not_done (fuel : nat) (max_retry retry : Z)
    (product_id : string) (report_id : Z) (st : sync) : option (bool * sync) :=
  match fuel with
  | O => None
  | S fuel =>
      match try_body product_id report_id st with
      | (Return _, st) => Some (true, st)
      | (Raise _, st) =>
          if bool_decide (retry < max_retry)
          then while_not_done fuel max_retry (retry + 1) product_id report_id
                 (print "retrying" st)
          else Some (false, st)
      end
  end.

(** [for report_id in tqdm(ids):] also collecting the final [done] of each
    item (the source drops it). *)
Fixpoint for_report_ids (max_retry : Z) (product_id : string) (ids : list Z)
    (st : sync) : option (list bool * sync) :=
  match ids with
  | [] => Some ([], st)
  | report_id :: rest =>
      match while_not_done (S (Z.to_nat max_retry)) max_retry 0
              product_id report_id st with
      | None => None
      | Some (done, st) =>
          match for_report_ids max_retry product_id rest st with
          | None => None
          | Some (dones, st) => Some (done :: dones, st)
          end
      end
  end.

Definition max_retry : Z := 3.

(** [update_archive]; [report] is what [get_product_history_bundles]
    gave (or raised). *)
Definition update_archive (product_id : string) (report : result json_doc)
    (st : sync) : option (result unit * sync) :=
  match report with
  | Raise e => Some (Raise e, st)
  | Return report =>
      match bundles report with
      | None => Some (Raise (KeyError "bundles"), st)
      | Some ids =>
          match for_report_ids max_retry product_id ids st with
          | None => None
          | Some (_, st) => Some (Return (), st)
          end
      end
  end.

(** *** Sequences of calls

    A caller's series of API calls, each one going through [_request] (as
    [get_version], [list_products], [download_bundle] and the other endpoint
    methods do); a call that raises does not stop the series. *)

Record api_call := {
  ac_method : string;
  ac_path : string;
  ac_params : option (gmap string pyval);
  ac_json : option (gmap string pyval);
  ac_stream : bool;
}.

Definition do_call (a : api_call) (c : client) : client :=
  (_request (ac_method a) (ac_path a) (ac_params a) (ac_json a) (ac_stream a) c).2.

Definition run_requests (calls : list api_call) (c : client) : client :=
  foldl (λ c a, do_call a c) c calls.

(** The requests the session received between two states of the client. *)
Definition sent_since (before after : client) : list request :=
  drop (length (requests (_session before))) (requests (_session after)).

End Ercot.

(** ** [PubApiClient] ([ercot/pubapi_client.py]) *)

Module PubApi.

Record PubApiClientConfig := {
  base_url : string;
  timeout : Z;
  api_key : option string;
  api_key_in_query : bool;
}.

(** An entry of an operation's ["parameters"]: [p["name"]], [p.get("in")]
    and the ["required"] flag ([false] when absent), which the client never
    reads. *)
Record parameter := {
  name : string;
  in_ : option string;
  required : bool;
}.

(** An entry of [_operations]; [requestBody] is the truth value of the
    stored ["requestBody"]. *)
Record operation := {
  method : string;
  path : string;
  parameters : list parameter;
  requestBody : bool;
}.

Record http_request := {
  req_method : string;
  req_url : string;
  req_headers : gmap string pyval;
  req_params : gmap string pyval;
  req_json : pyval;
  req_data : pyval;
  req_timeout : Z;
  req_stream : bool;
}.

Record response := {
  status_code : Z;
  text : string;
}.

Record session := {
  requests : list http_request;
  responses : list (option response);
}.

Definition send (r : http_request) (s : session) : result response * session :=
  let log := requests s ++ [r] in
  match responses s with
  | Some resp :: later =>
      (Return resp, {| requests := log; responses := later |})
  | None :: later =>
      (Raise ConnectionError, {| requests := log; responses := later |})
  | [] => (Raise ConnectionError, {| requests := log; responses := [] |})
  end.

Definition _headers (cfg : PubApiClientConfig) (extra : option (gmap string pyval))
  : gmap string pyval :=
  let headers := default ∅ extra in
  if truthy (api_key cfg) && negb (api_key_in_query cfg)
  then <["Ocp-Apim-Subscription-Key" := PStr (default "" (api_key cfg))]> headers
  else headers.

Definition _query_api_key (cfg : PubApiClientConfig)
    (params : option (gmap string pyval)) : gmap string pyval :=
  let params := default ∅ params in
  if truthy (api_key cfg) && api_key_in_query cfg
  then <["subscription-key" := PStr (default "" (api_key cfg))]> params
  else params.

Definition request (cfg : PubApiClientConfig) (method path : string)
    (params headers : option (gmap string pyval)) (json_body data : pyval)
    (stream : bool) (s : session) : result response * session :=
  let url := rstrip_slash (base_url cfg) +:+ "/" +:+ lstrip_slash path in
  let req := {| req_method := method; req_url := url;
                req_headers := _headers cfg headers;
                req_params := _query_api_key cfg params;
                req_json := json_body; req_data := data;
                req_timeout := timeout cfg; req_stream := stream |} in
  match send req s with
  | (Raise e, s) => (Raise e, s)
  | (Return resp, s) =>
      if raises_for_status (status_code resp)
      then (Raise (HTTPError (status_code resp)), s)
      else (Return resp, s)
  end.

(** *** [str.format] with keyword arguments only

    Literal text, the escapes [{{] and [}}], and replacement fields [{name}].
    A field that uses a conversion ([!]), a format specification ([:]), an
    attribute ([.]) or an index ([[]) is outside this model: the result is
    [None] there. *)

Definition is_digit (c : ascii) : bool :=
  (bool_decide (48 ≤ N_of_ascii c ≤ 57))%N.

Fixpoint all_digits (s : string) : bool :=
  match s with
  | EmptyString => true
  | String c rest => is_digit c && all_digits rest
  end.

(** The value of field [field]: positional fields find no positional
    argument, named ones are looked up in the keyword arguments. *)
Definition get_field (field : string) (values : gmap string pyval)
  : result string :=
  if all_digits field then Raise IndexError
  else match values !! field with
       | Some v => Return (str v)
       | None => Raise (KeyError field)
       end.

Definition then_ (r : result string) (k : option (result string))
  : option (result string) :=
  match r with
  | Raise e => Some (Raise e)
  | Return head =>
      match k with
      | Some (Return tail) => Some (Return (head +:+ tail))
      | other => other
      end
  end.

Definition field_syntax (c : ascii) : bool :=
  Ascii.eqb c "!" || Ascii.eqb c ":" || Ascii.eqb c "." || Ascii.eqb c "[".

(** [field] is [Some read] inside a replacement field, of which [read] has
    been read so far. *)
Fixpoint format_from (values : gmap string pyval) (field : option string)
    (s : string) : option (result string) :=
  match field, s with
  | None, EmptyString => Some (Return "")
  | None, String c rest =>
      if Ascii.eqb c "{" then
        match rest with
        | String "{"%char rest' =>
            then_ (Return "{") (format_from values None rest')
        | EmptyString =>
            Some (Raise (ValueError "Single '{' encountered in format string"))
        | _ => format_from values (Some "") rest
        end
      else if Ascii.eqb c "}" then
        match rest with
        | String "}"%char rest' =>
            then_ (Return "}") (format_from values None rest')
        | _ => Some (Raise (ValueError "Single '}' encountered in format string"))
        end
      else then_ (Return (String c "")) (format_from values None rest)
  | Some read, EmptyString =>
      Some (Raise (ValueError "expected '}' before end of string"))
  | Some read, String c rest =>
      if Ascii.eqb c "}" then
        then_ (get_field read values) (format_from values None rest)
      else if Ascii.eqb c "{" then
        Some (Raise (ValueError "unexpected '{' in field name"))
      else if field_syntax c then None
      else format_from values (Some (read +:+ String c "")) rest
  end.

Definition format (template : string) (values : gmap string pyval)
  : option (result string) :=
  format_from values None template.

(** *** [call] *)

(** [{p["name"] for p in op["parameters"] if p.get("in") == location}] *)
Definition names_in (location : string) (op : operation) : gset string :=
  list_to_set (name <$> filter (λ p, in_ p = Some location) (parameters op)).

(** [{name: kwargs.pop(name) for name in names if name in kwargs}]: the
    entries taken, and what is left of [kwargs]. *)
Definition pop_all (names : gset string) (kwargs : gmap string pyval)
  : gmap string pyval * gmap string pyval :=
  (filter (λ kv, kv.1 ∈ names) kwargs, filter (λ kv, kv.1 ∉ names) kwargs).

(** [kwargs.pop(key, None)] *)
Definition pop_or_None (key : string) (kwargs : gmap string pyval)
  : pyval * gmap string pyval :=
  (default PNone (kwargs !! key), delete key kwargs).

(** [sorted(kwargs.keys())] *)
Fixpoint insert_sorted (key : string) (keys : list string) : list string :=
  match keys with
  | [] => [key]
  | k :: rest =>
      if String.leb key k then key :: keys else k :: insert_sorted key rest
  end.

Definition sorted_keys (kwargs : gmap string pyval) : list string :=
  foldr insert_sorted [] (map_to_list kwargs).*1.

Definition call (operations : gmap string operation) (cfg : PubApiClientConfig)
    (operation_id : string) (kwargs : gmap string pyval) (s : session)
  : option (result response * session) :=
  match operations !! operation_id with
  | None => Some (Raise (KeyError ("Unknown operationId: " +:+ operation_id)), s)
  | Some op =>
      let path_params := names_in "path" op in
      let query_params := names_in "query" op in
      let header_params := names_in "header" op in
      let missing := filter (λ name, kwargs !! name = None) (elements path_params) in
      if negb (bool_decide (missing = [])) then
        Some (Raise (ValueError ("Missing required path parameters: " +:+
                                 join ", " missing)), s)
      else
        let '(path_values, kwargs) := pop_all path_params kwargs in
        let '(query, kwargs) := pop_all query_params kwargs in
        let '(headers, kwargs) := pop_all header_params kwargs in
        let '(json_body, kwargs) := pop_or_None "json" kwargs in
        let '(data, kwargs) := pop_or_None "data" kwargs in
        let '(json_body, kwargs) :=
          if requestBody op && is_None json_body && is_None data
          then pop_or_None "body" kwargs
          else (json_body, kwargs) in
        if negb (bool_decide (kwargs = ∅)) then
          let unknown := join ", " (sorted_keys kwargs) in
          Some (Raise (ValueError ("Unexpected parameters for " +:+ operation_id
                                   +:+ ": " +:+ unknown)), s)
        else
          match format (path op) path_values with
          | None => None
          | Some (Raise e) => Some (Raise e, s)
          | Some (Return path) =>
              Some (request cfg (method op) path (Some query)
                      (if bool_decide (headers = ∅) then None else Some headers)
                      json_body data false s)
          end
  end.

(** *** [_index_operations] and [list_operations]

    The ["paths"] of the specification document: for each path, in document
    order, the keys of its path item with their values.  A value is an
    operation object, seen through the keys the client reads
    ([operationId], [parameters] with its default [[]], the truth value of
    [requestBody]), or something that is no JSON object and so has no
    [.get]. *)

Inductive path_item_value :=
| NotAnObject
| OperationObject (operationId : option string) (params : option (list parameter))
    (has_body : bool).

(** [str.upper()] on ASCII letters. *)
Definition upper_char (c : ascii) : ascii :=
  let n := N_of_ascii c in
  if (bool_decide (97 ≤ n ≤ 122))%N then ascii_of_N (n - 32) else c.

Fixpoint upper (s : string) : string :=
  match s with
  | EmptyString => EmptyString
  | String c rest => String (upper_char c) (upper rest)
  end.

(** The inner loop, [for method, op in methods.items()]; [None] is the
    [AttributeError] of [op.get] on a value that is no object. *)
Fixpoint index_methods (path : string)
    (methods : list (string * path_item_value))
    (operations : gmap string operation) : option (gmap string operation) :=
  match methods with
  | [] => Some operations
  | (method, op) :: rest =>
      if String.prefix "x-" method then index_methods path rest operations
      else match op with
           | NotAnObject => None
           | OperationObject operation_id params has_body =>
               if negb (truthy operation_id)
               then index_methods path rest operations
               else index_methods path rest
                      (<[default "" operation_id :=
                           {| method := upper method; path := path;
                              parameters := default [] params;
                              requestBody := has_body |}]> operations)
           end
  end.

Fixpoint index_paths (paths : list (string * list (string * path_item_value)))
    (operations : gmap string operation) : option (gmap string operation) :=
  match paths with
  | [] => Some operations
  | (path, methods) :: rest =>
      match index_methods path methods operations with
      | Some operations => index_paths rest operations
      | None => None
      end
  end.

Definition _index_operations
    (paths : list (string * list (string * path_item_value)))
  : option (gmap string operation) :=
  index_paths paths ∅.

(** [sorted(self._operations.keys())] *)
Definition list_operations (operations : gmap string operation) : list string :=
  foldr insert_sorted [] (map_to_list operations).*1.

(** The names the operation declares, in any of the three locations, and
    the arguments that match none of them. *)
Definition declared (op : operation) : gset string :=
  names_in "path" op ∪ names_in "query" op ∪ names_in "header" op.

Definition undeclared (op : operation) (kwargs : gmap string pyval)
  : gmap string pyval :=
  filter (λ kv, kv.1 ∉ declared op) kwargs.

(** Whether ["body"] is popped: [op.get("requestBody") and json_body is
    None and data is None], on the arguments left after the declared ones. *)
Definition takes_body (op : operation) (kwargs : gmap string pyval) : bool :=
  requestBody op &&
  is_None (default PNone (undeclared op kwargs !! "json")) &&
  is_None (default PNone (undeclared op kwargs !! "data")).

(** The arguments [call] passes on as query parameters and as headers, and
    those still in [kwargs] when it looks for unexpected ones. *)
Definition query_arguments (op : operation) (kwargs : gmap string pyval)
  : gmap string pyval :=
  (pop_all (names_in "query" op) (pop_all (names_in "path" op) kwargs).2).1.

Definition header_arguments (op : operation) (kwargs : gmap string pyval)
  : gmap string pyval :=
  (pop_all (names_in "header" op)
     (pop_all (names_in "query" op) (pop_all (names_in "path" op) kwargs).2).2).1.

Definition leftover (op : operation) (kwargs : gmap string pyval)
  : gmap string pyval :=
  if takes_body op kwargs
  then delete "body" (delete "data" (delete "json" (undeclared op kwargs)))
  else delete "data" (delete "json" (undeclared op kwargs)).

(** The requests the session received between two of its states. *)
Definition sent_since (before after : session) : list http_request :=
  drop (length (requests before)) (requests after).

End PubApi.

(** ** The page count in the words of the specification

    These definitions follow the specification's stop rules, not the
    code; the theorems below compare [Ercot.iter_report_pages] with them. *)

Module PagesSpec.

(** "this was the last page": the metadata lacks the total page count or
    the current page index, or [currentPage + 1 >= totalPages]. *)
Definition last_page (d : Ercot.json_doc) : bool :=
  match Ercot.totalPages d, Ercot.currentPage d with
  | Some total, Some current => bool_decide (total ≤ current + 1)
  | _, _ => true
  end.

(** The natural end of a sequence of payloads: the position (counting
    from 1) of its first last page. *)
Fixpoint natural_end (payloads : list Ercot.json_doc) : nat :=
  match payloads with
  | [] => 1
  | d :: rest => if last_page d then 1 else S (natural_end rest)
  end.

(** "exactly min(maxPages, natural-end) payloads" *)
Definition pages_claimed (max_pages : option Z)
    (payloads : list Ercot.json_doc) : nat :=
  match max_pages with
  | Some m => Nat.min (Z.to_nat m) (natural_end payloads)
  | None => natural_end payloads
  end.

(** The same with a cap that counts as 1 when it is below 1: the first page
    is fetched and yielded before the cap is looked at. *)
Definition pages_yielded (max_pages : option Z)
    (payloads : list Ercot.json_doc) : nat :=
  match max_pages with
  | Some m => Nat.min (Z.to_nat (Z.max 1 m)) (natural_end payloads)
  | None => natural_end payloads
  end.

(** The request for page [i]. *)
Definition page_request (path : string) (params : option (gmap string pyval))
    (page_size : Z) (i : nat) : string * gmap string pyval :=
  (path, <["size" := PInt page_size]>
           (<["page" := PInt (Z.of_nat i)]> (default ∅ params))).

End PagesSpec.

(** ** Lists of names in the words of the specification *)

Module ListingSpec.

(** "lists the names": [text] is the names written one after the other,
    in the order of [names], with [sep] between two of them. *)
Inductive separated (sep : string) : list string → string → Prop :=
| separated_none : separated sep [] ""
| separated_one n : separated sep [n] n
| separated_more n m rest text :
    separated sep (m :: rest) text →
    separated sep (n :: m :: rest) (n +:+ sep +:+ text).

End ListingSpec.

(** ** Path templates in the words of the specification

    A path template is literal text with [{name}] placeholders.  These
    definitions describe templates and the two ways to fill them that the
    theorems compare: each value as [str()] gives it, and each value
    percent-encoded for a URL path segment. *)

Module PathSpec.

Inductive piece :=
| Lit (text : string)
| Field (name : string).

Definition piece_text (p : piece) : string :=
  match p with
  | Lit text => text
  | Field name => "{" +:+ name +:+ "}"
  end.

Definition template_text (pieces : list piece) : string :=
  foldr (λ p rest, piece_text p +:+ rest) "" pieces.

Fixpoint all_chars (ok : ascii → bool) (s : string) : bool :=
  match s with
  | EmptyString => true
  | String c rest => ok c && all_chars ok rest
  end.

Definition brace (c : ascii) : bool := Ascii.eqb c "{" || Ascii.eqb c "}".

(** Literal text has no braces; a placeholder name has no braces, none of
    [! : . [], and is not a number. *)
Definition well_formed (p : piece) : bool :=
  match p with
  | Lit text => all_chars (λ c, negb (brace c)) text
  | Field name =>
      all_chars (λ c, negb (brace c) && negb (PubApi.field_syntax c)) name &&
      negb (PubApi.all_digits name)
  end.

(** The template with every placeholder replaced by [encode] of the text
    of its value ([None] when the argument is absent). *)
Definition fill (encode : string → string) (values : gmap string pyval)
    (pieces : list piece) : string :=
  foldr (λ p rest,
           match p with
           | Lit text => text
           | Field name => encode (str (default PNone (values !! name)))
           end +:+ rest) "" pieces.

(** "safely encoded for inclusion in a URL path segment": every byte other
    than a letter, a digit or one of [_.-~] is written [%XX]. *)
Fixpoint percent_encode (s : string) : string :=
  match s with
  | EmptyString => EmptyString
  | String c rest =>
      if Ercot.always_safe c then String c (percent_encode rest)
      else String "%" (String (Ercot.hex_digit (N_of_ascii c / 16))
                      (String (Ercot.hex_digit (N_of_ascii c mod 16))
                         (percent_encode rest)))
  end.

(** Literal text written for [str.format]: every brace doubled. *)
Fixpoint escape_braces (s : string) : string :=
  match s with
  | EmptyString => EmptyString
  | String c rest =>
      if brace c then String c (String c (escape_braces rest))
      else String c (escape_braces rest)
  end.

(** What [str.format] makes of the pieces, one after the other. *)
Definition render (values : gmap string pyval) (pieces : list piece)
  : option (result string) :=
  foldr (λ p rest,
           PubApi.then_ match p with
                        | Lit text => Return text
                        | Field name => PubApi.get_field name values
                        end rest)
        (Some (Return "")) pieces.

End PathSpec.

(** ** Sample clients, after [test_client.py] *)

Module Examples.

Definition empty_doc : Ercot.json_doc :=
  {| Ercot.id_token := None; Ercot.bundles := None;
     Ercot.totalPages := None; Ercot.currentPage := None |}.

(** [FakeResponse(payload=doc, status_code=status)] *)
Definition fake_response (status : Z) (doc : option Ercot.json_doc)
  : Ercot.response :=
  {| Ercot.status_code := status; Ercot.json := doc; Ercot.content := Ercot.Raw "" |}.

Definition fake_session (answers : list (option Ercot.response)) : Ercot.session :=
  {| Ercot.requests := []; Ercot.responses := answers |}.

(** [ErcotPublicDataClient(api_key=key, api_key_in_query=in_query,
    session=session)] *)
Definition ercot_client (key : option string) (in_query : bool)
    (sess : Ercot.session) (clock : list Z) : Ercot.client :=
  Ercot.new_client key None 30 in_query None None None None None sess clock.

(** [get_version()] and [list_products()] *)
Definition get_version : Ercot.api_call :=
  {| Ercot.ac_method := "GET"; Ercot.ac_path := "/version";
     Ercot.ac_params := None; Ercot.ac_json := None; Ercot.ac_stream := false |}.

Definition list_products : Ercot.api_call :=
  {| Ercot.ac_method := "GET"; Ercot.ac_path := "/";
     Ercot.ac_params := None; Ercot.ac_json := None; Ercot.ac_stream := false |}.

Definition token_doc (token : string) : Ercot.json_doc :=
  {| Ercot.id_token := Some token; Ercot.bundles := None;
     Ercot.totalPages := None; Ercot.currentPage := None |}.

Definition pubapi_config (key : option string) (in_query : bool)
  : PubApi.PubApiClientConfig :=
  {| PubApi.base_url := "https://api.ercot.com/api/public-reports";
     PubApi.timeout := 30; PubApi.api_key := key;
     PubApi.api_key_in_query := in_query |}.

Definition pubapi_session (answers : list (option PubApi.response))
  : PubApi.session :=
  {| PubApi.requests := []; PubApi.responses := answers |}.

Definition ok : PubApi.response :=
  {| PubApi.status_code := 200; PubApi.text := "" |}.

(** An operation with three path parameters and a query parameter. *)
Definition get_part : PubApi.operation :=
  {| PubApi.method := "GET";
     PubApi.path := "/archive/{productId}/{docId}/{part}";
     PubApi.parameters :=
       [ {| PubApi.name := "productId"; PubApi.in_ := Some "path"; PubApi.required := true |};
         {| PubApi.name := "docId"; PubApi.in_ := Some "path"; PubApi.required := true |};
         {| PubApi.name := "part"; PubApi.in_ := Some "path"; PubApi.required := true |};
         {| PubApi.name := "page"; PubApi.in_ := Some "query"; PubApi.required := false |} ];
     PubApi.requestBody := false |}.

(** An operation without parameters and without a request body. *)
Definition get_version_op : PubApi.operation :=
  {| PubApi.method := "GET"; PubApi.path := "/version";
     PubApi.parameters := []; PubApi.requestBody := false |}.

(** An operation with one path parameter. *)
Definition get_archive_op : PubApi.operation :=
  {| PubApi.method := "GET"; PubApi.path := "/archive/{emilId}";
     PubApi.parameters :=
       [ {| PubApi.name := "emilId"; PubApi.in_ := Some "path"; PubApi.required := true |} ];
     PubApi.requestBody := false |}.

(** A listing with the given document ids. *)
Definition bundle_listing (ids : list Z) : Ercot.json_doc :=
  {| Ercot.id_token := None; Ercot.bundles := Some ids;
     Ercot.totalPages := None; Ercot.currentPage := None |}.

(** A disk on which the product's data directory exists, together with the
    directories of the given document ids, each holding one file. *)
Definition disk_with (product_id : string) (ids : list Z)
  : gmap string (gmap string Ercot.blob) :=
  foldr (λ id d, <[Ercot.save_dir product_id id :=
                     {["report.csv" := Ercot.Raw "done"]}]> d)
        {["/home/dell/code/ercot/ercot/data/" +:+ product_id := ∅]} ids.

Definition sync_start (d : gmap string (gmap string Ercot.blob))
    (answers : list (result Ercot.blob)) : Ercot.sync :=
  {| Ercot.fs := d; Ercot.replies := answers; Ercot.downloaded := [];
     Ercot.printed := [] |}.

(** A bundle: an outer archive whose members are archives of one file. *)
Definition bundle_zip : Ercot.blob :=
  Ercot.Archive [("a.zip", Ercot.Archive [("a.csv", Ercot.Raw "1")]);
                 ("b.zip", Ercot.Archive [("b.csv", Ercot.Raw "2")])].

(** The payloads of [test_iter_report_pages_stops]. *)
Definition page_of (total current : Z) : Ercot.json_doc :=
  {| Ercot.id_token := None; Ercot.bundles := None;
     Ercot.totalPages := Some total; Ercot.currentPage := Some current |}.

(** The ["paths"] of a small specification document, with an [x-]
    extension key and an operation without [operationId]. *)
Definition sample_paths : list (string * list (string * PubApi.path_item_value)) :=
  [ ("/version",
     [ ("get", PubApi.OperationObject (Some "getVersion") None false);
       ("x-internal", PubApi.NotAnObject) ]);
    ("/archive/{emilId}",
     [ ("get", PubApi.OperationObject (Some "getArchive")
                 (Some [ {| PubApi.name := "emilId"; PubApi.in_ := Some "path"; PubApi.required := true |} ])
                 false);
       ("post", PubApi.OperationObject None None true) ]) ].

(** An operation whose path has a placeholder it does not declare. *)
Definition get_document_op : PubApi.operation :=
  {| PubApi.method := "GET"; PubApi.path := "/archive/{emilId}/{docId}";
     PubApi.parameters :=
       [ {| PubApi.name := "emilId"; PubApi.in_ := Some "path"; PubApi.required := true |} ];
     PubApi.requestBody := false |}.

End Examples.

(** * Properties *)

(** ** The rate limiter keeps at most [limit] timestamps *)

Section limiter_facts.
Context {time : Type}.
Variable le_time : time → time → bool.
Variable add_time sub_time : time → time → time.

#[local] Abbreviation popleft_expired := (RateLimiter.popleft_expired le_time).
#[local] Abbreviation locked_check := (RateLimiter.locked_check le_time add_time sub_time).
#[local] Abbreviation wait_loop := (RateLimiter.wait_loop le_time add_time sub_time).
#[local] Abbreviation _wait_for_rate_limit :=
  (RateLimiter._wait_for_rate_limit le_time add_time sub_time).
#[local] Abbreviation deque_history :=
  (RateLimiter.deque_history le_time add_time sub_time).

Lemma popleft_expired_suffix cutoff ts :
  ∃ dropped, ts = dropped ++ popleft_expired cutoff ts ∧
             Forall (λ t, le_time t cutoff = true) dropped.
Proof.
  induction ts as [|t ts [dropped [Heq Hall]]]; simpl.
  - by exists [].
  - destruct (le_time t cutoff) eqn:Ht.
    + exists (t :: dropped). split; [by rewrite Heq at 1|by constructor].
    + by exists [].
Qed.

Lemma popleft_expired_length cutoff ts :
  (length (popleft_expired cutoff ts) ≤ length ts)%nat.
Proof.
  destruct (popleft_expired_suffix cutoff ts) as [dropped [Heq _]].
  rewrite Heq at 2. rewrite length_app. lia.
Qed.

Lemma popleft_expired_head cutoff ts t rest :
  popleft_expired cutoff ts = t :: rest → le_time t cutoff = false.
Proof.
  induction ts as [|t0 ts IH]; simpl; [done|].
  destruct (le_time t0 cutoff) eqn:Ht; [done|]. by intros [= <- _].
Qed.

Lemma locked_check_cases limit window now ts :
  let kept := popleft_expired (sub_time now window) ts in
  (Z.of_nat (length kept) < limit ∧
   locked_check limit window now ts = (RateLimiter.Admit, kept ++ [now])) ∨
  (limit ≤ Z.of_nat (length kept) ∧
   (locked_check limit window now ts).1 ≠ RateLimiter.Admit ∧
   (locked_check limit window now ts).2 = kept).
Proof.
  simpl. unfold RateLimiter.locked_check.
  case_bool_decide; [left; done|right].
  split; [lia|]. by destruct (popleft_expired _ _).
Qed.

Lemma locked_check_bounded limit window now ts :
  Z.of_nat (length ts) ≤ limit →
  Z.of_nat (length (locked_check limit window now ts).2) ≤ limit.
Proof.
  intros Hts.
  pose proof (popleft_expired_length (sub_time now window) ts) as Hlen.
  destruct (locked_check_cases limit window now ts) as [[Hlt ->]|(_ & _ & ->)];
    simpl; [rewrite length_app; simpl|]; lia.
Qed.

Lemma wait_loop_bounded limit window clock ts :
  Z.of_nat (length ts) ≤ limit →
  Z.of_nat (length (wait_loop limit window clock ts).1.2) ≤ limit.
Proof.
  revert ts. induction clock as [|now later IH]; intros ts Hts; simpl; [done|].
  pose proof (locked_check_bounded limit window now ts Hts) as Hstep.
  destruct (locked_check limit window now ts) as [[| |] ts']; simpl in *;
    [done|by apply IH|done].
Qed.

Lemma _wait_for_rate_limit_bounded limit window clock ts :
  Z.of_nat (length ts) ≤ limit →
  Z.of_nat (length (_wait_for_rate_limit (Some limit) window clock ts).1.2) ≤ limit.
Proof.
  intros Hts. unfold RateLimiter._wait_for_rate_limit.
  destruct (RateLimiter.no_limit _); [done|by apply wait_loop_bounded].
Qed.

Lemma deque_history_bounded limit window calls ts :
  Z.of_nat (length ts) ≤ limit →
  Forall (λ ts', Z.of_nat (length ts') ≤ limit)
         (deque_history (Some limit) window calls ts).
Proof.
  revert ts. induction calls as [|clock rest IH]; intros ts Hts; simpl.
  - constructor.
  - pose proof (_wait_for_rate_limit_bounded limit window clock ts Hts).
    constructor; [done|by apply IH].
Qed.

(** C9: with a limit [limit > 0], whatever the clock reads and however many
    times [_wait_for_rate_limit] is called on a fresh client, the deque of
    timestamps never holds more than [limit] entries; every pass under the
    lock keeps the bound, dropping expired entries from the left and
    appending [now] only when fewer than [limit] remain. *)
Theorem rate_limit_deque_bounded (limit : Z) (window : time) :
  0 < limit →
  (∀ calls : list (list time),
     Forall (λ ts, Z.of_nat (length ts) ≤ limit)
            (deque_history (Some limit) window calls [])) ∧
  (∀ now ts,
     Z.of_nat (length ts) ≤ limit →
     let kept := popleft_expired (sub_time now window) ts in
     Z.of_nat (length (locked_check limit window now ts).2) ≤ limit ∧
     ((locked_check limit window now ts).2 = kept ++ [now] ∧
      Z.of_nat (length kept) < limit
      ∨ (locked_check limit window now ts).2 = kept ∧
        limit ≤ Z.of_nat (length kept))).
Proof.
  intros Hpos. split.
  - intros calls. apply deque_history_bounded. simpl. lia.
  - intros now ts Hts kept. split; [by apply locked_check_bounded|].
    destruct (locked_check_cases limit window now ts) as [[Hlt ->]|(Hge & _ & ->)];
      [left|right]; done.
Qed.

End limiter_facts.

(** The bound at work: limit 2, window 60, three calls in the same second;
    the third one waits until the first timestamp has expired. *)
Lemma rate_limit_deque_bounded_witness :
  0 < 2 ∧
  RateLimiter.deque_history Z.leb Z.add Z.sub (Some 2) 60
    [[100]; [100]; [100; 160]] [] = [[100]; [100; 100]; [160]] ∧
  Forall (λ ts : list Z, Z.of_nat (length ts) ≤ 2)
    (RateLimiter.deque_history Z.leb Z.add Z.sub (Some 2) 60
       [[100]; [100]; [100; 160]] []).
Proof.
  split; [lia|]. split; [reflexivity|].
  exact (proj1 (rate_limit_deque_bounded Z.leb Z.add Z.sub 2 60 ltac:(lia)) _).
Defined.

(** ** [ErcotPublicDataClient]: what a dispatched request carries *)

Section ercot_requests.
Import Ercot.

Lemma send_log r s : requests (send r s).2 = requests s ++ [r].
Proof. unfold send. by destruct (responses s) as [|[?|] ?]. Qed.

Lemma _headers_ext c c' :
  config c' = config c → _id_token c' = _id_token c → _headers c' = _headers c.
Proof. unfold _headers. by intros -> ->. Qed.

Lemma _query_api_key_ext c c' params :
  config c' = config c → _query_api_key c' params = _query_api_key c params.
Proof. unfold _query_api_key. by intros ->. Qed.

(** [_request] leaves the configuration and the token alone, and hands the
    session at most one request, built by [_headers] and [_query_api_key]. *)
Lemma _request_effect method path params json stream c :
  let c' := (_request method path params json stream c).2 in
  config c' = config c ∧ _id_token c' = _id_token c ∧
  (requests (_session c') = requests (_session c) ∨
   ∃ r, requests (_session c') = requests (_session c) ++ [r] ∧
        req_headers r = _headers c ∧
        req_params r = _query_api_key c params).
Proof.
  unfold _request.
  destruct (RateLimiter._wait_for_rate_limit _ _ _ _ _ _ _) as [[w ts] clock].
  destruct w; simpl; [|by auto|by auto].
  match goal with |- context [send ?r ?s] =>
    pose proof (send_log r s) as Hlog; destruct (send r s) as [res sess] end.
  simpl in Hlog.
  assert (∀ o : option (result response),
    let c' := (o, {| config := config c; _id_token := _id_token c;
                     _rate_limit_timestamps := ts; _session := sess;
                     monotonic := clock |}).2 in
    config c' = config c ∧ _id_token c' = _id_token c ∧
    (requests (_session c') = requests (_session c) ∨
     ∃ r, requests (_session c') = requests (_session c) ++ [r] ∧
          req_headers r = _headers c ∧ req_params r = _query_api_key c params))
    as Hany.
  { intros o. simpl. split; [done|]. split; [done|]. right.
    eexists. split; [exact Hlog|]. done. }
  destruct res as [resp|e]; [|apply Hany].
  destruct (raises_for_status _); apply Hany.
Qed.

Lemma sent_since_app c c' new :
  requests (_session c') = requests (_session c) ++ new → sent_since c c' = new.
Proof. unfold sent_since. intros ->. by rewrite drop_app_length. Qed.

Lemma run_requests_effect calls c :
  config (run_requests calls c) = config c ∧
  _id_token (run_requests calls c) = _id_token c ∧
  ∃ new, requests (_session (run_requests calls c)) = requests (_session c) ++ new ∧
         Forall (λ r, req_headers r = _headers c) new.
Proof.
  revert c. induction calls as [|a calls IH]; intros c.
  - simpl. repeat split. exists []. by rewrite app_nil_r.
  - simpl.
    destruct (_request_effect (ac_method a) (ac_path a) (ac_params a)
                (ac_json a) (ac_stream a) c) as (Hcfg & Htok & Hlog).
    fold (do_call a c) in Hcfg, Htok, Hlog.
    destruct (IH (do_call a c)) as (Hcfg' & Htok' & new & Hnew & Hall).
    fold (run_requests calls (do_call a c)).
    split; [congruence|]. split; [congruence|].
    assert (Forall (λ r, req_headers r = _headers c) new) as Hall'.
    { eapply Forall_impl; [exact Hall|]. simpl. intros r ->.
      by apply _headers_ext. }
    destruct Hlog as [Hsame|(r & Hone & Hh & _)].
    + exists new. by rewrite Hnew, Hsame.
    + exists (r :: new). rewrite Hnew, Hone, <- app_assoc. split; [done|].
      by constructor.
Qed.

End ercot_requests.

(** ** [authenticate] and the bearer token *)

Section ercot_token.
Import Ercot.

Lemma truthy_Some s : truthy (Some s) = true ↔ s ≠ "".
Proof.
  simpl. destruct (String.eqb_spec s ""); simpl; split; congruence.
Qed.

(** Every way through [authenticate]: it fails and the token field is the
    one it was, or it returns the non-empty [id_token] of a response that
    passed [raise_for_status] and stores exactly that. *)
Lemma authenticate_cases username password c :
  let r := (authenticate username password c).1 in
  let c' := (authenticate username password c).2 in
  config c' = config c ∧
  ((∃ e, r = Raise e) ∧ _id_token c' = _id_token c ∧
   (∀ resp later, responses (_session c) = Some resp :: later →
      raises_for_status (status_code resp) = true ∨
      ∀ data, json resp = Some data → truthy (id_token data) = false)
   ∨
   ∃ t resp later data,
     r = Return t ∧ _id_token c' = Some t ∧ t ≠ "" ∧
     responses (_session c) = Some resp :: later ∧
     raises_for_status (status_code resp) = false ∧
     json resp = Some data ∧ id_token data = Some t).
Proof.
  unfold authenticate, send.
  destruct (responses (_session c)) as [|[resp|] later]; simpl.
  - split; [done|]. left. split; [by eexists|]. split; [done|]. by intros.
  - destruct (raises_for_status (status_code resp)) eqn:Hst; simpl.
    { split; [done|]. left. split; [by eexists|]. split; [done|].
      intros ? ? [= <- _]. by left. }
    destruct (json resp) as [data|] eqn:Hjson; simpl.
    2:{ split; [done|]. left. split; [by eexists|]. split; [done|].
        intros ? ? [= <- _]. right. intros ? Hd. congruence. }
    destruct (truthy (id_token data)) eqn:Htok; simpl.
    + split; [done|]. right.
      destruct (id_token data) as [t|] eqn:Ht; [|done].
      exists t, resp, later, data. repeat split; try done.
      by apply truthy_Some.
    + split; [done|]. left. split; [by eexists|]. split; [done|].
      intros ? ? [= <- _]. right. intros ? Hd. congruence.
  - split; [done|]. left. split; [by eexists|]. split; [done|]. by intros.
Qed.

(** C10: when [authenticate] raises, whatever the reason (an HTTP status
    that [raise_for_status] rejects, a body that is no JSON, an [id_token]
    that is absent or empty, a transport failure), the stored token is the
    one the client had, and so are the headers of later requests; a status
    of 4xx or 5xx and a missing or empty [id_token] do make it raise; and
    the stored token changes only to the token that was extracted and
    returned. *)
Theorem authenticate_failure_keeps_token username password c r c' :
  authenticate username password c = (r, c') →
  (∀ e, r = Raise e → _id_token c' = _id_token c ∧ _headers c' = _headers c) ∧
  (∀ resp later,
     responses (_session c) = Some resp :: later →
     raises_for_status (status_code resp) = true ∨
     (∀ data, json resp = Some data → truthy (id_token data) = false) →
     ∃ e, r = Raise e) ∧
  (_id_token c' ≠ _id_token c →
   ∃ t, r = Return t ∧ _id_token c' = Some t ∧ t ≠ "").
Proof.
  intros Hrun.
  pose proof (authenticate_cases username password c) as Hcases.
  rewrite Hrun in Hcases. simpl in Hcases.
  destruct Hcases as [Hcfg [([e He] & Hsame & _)|(t & resp & later & data & Hok)]].
  - split; [|split].
    + intros _ _. split; [done|]. by apply _headers_ext.
    + intros. by exists e.
    + done.
  - destruct Hok as (Hr & Htok & Hne & Hresp & Hst & Hjson & Hid).
    split; [|split].
    + intros e He. congruence.
    + intros resp' later' Hresp' [Hbad|Hbad].
      * congruence.
      * assert (resp' = resp) as -> by congruence.
        specialize (Hbad data Hjson). rewrite Hid in Hbad.
        apply truthy_Some in Hne. congruence.
    + intros _. by exists t.
Qed.

(** C7: after [authenticate] has returned [t], every request of any later
    series of calls carries [Authorization: Bearer t]; a client built by
    [__init__] that never got a token sends no [Authorization] header. *)
Theorem bearer_token_on_every_request username password c t c1 :
  authenticate username password c = (Return t, c1) →
  (∀ calls,
     Forall (λ r, req_headers r !! "Authorization" = Some ("Bearer " +:+ t))
            (sent_since c1 (run_requests calls c1))) ∧
  (∀ key url tmo in_query limit window turl cid scp sess clock calls,
     let fresh := new_client key url tmo in_query limit window turl cid scp
                    sess clock in
     Forall (λ r, req_headers r !! "Authorization" = None)
            (sent_since fresh (run_requests calls fresh))).
Proof.
  intros Hrun. split.
  - intros calls.
    pose proof (authenticate_cases username password c) as Hcases.
    rewrite Hrun in Hcases. simpl in Hcases.
    destruct Hcases as [_ [([e He] & _)|(t' & _ & _ & _ & Hr & Htok & Hne & _)]];
      [done|].
    assert (t' = t) as -> by congruence.
    destruct (run_requests_effect calls c1) as (_ & _ & new & Hnew & Hall).
    rewrite (sent_since_app _ _ _ Hnew).
    eapply Forall_impl; [exact Hall|]. simpl. intros r ->.
    unfold _headers. rewrite Htok.
    apply truthy_Some in Hne. rewrite Hne. simpl.
    by rewrite lookup_insert_eq.
  - intros key url tmo in_query limit window turl cid scp sess clock calls fresh.
    destruct (run_requests_effect calls fresh) as (_ & _ & new & Hnew & Hall).
    rewrite (sent_since_app _ _ _ Hnew).
    eapply Forall_impl; [exact Hall|]. simpl. intros r ->.
    unfold _headers, fresh. simpl.
    destruct (truthy key && negb in_query); [|done].
    by rewrite lookup_insert_ne.
Qed.

End ercot_token.

(** Rejected credentials: the token endpoint answers 401 to a client that
    holds the token ["tok-old"]; the call raises and the token stays. *)
Lemma authenticate_failure_keeps_token_witness :
  let c := Ercot.set_id_token "tok-old"
             (Examples.ercot_client None false
                (Examples.fake_session [Some (Examples.fake_response 401 None)]) []) in
  let run := Ercot.authenticate "user" "pass" c in
  run.1 = Raise (HTTPError 401) ∧ Ercot._id_token run.2 = Some "tok-old".
Proof.
  intros c run.
  assert (Ercot.authenticate "user" "pass" c = (Raise (HTTPError 401), run.2))
    as Hrun by (vm_compute; reflexivity).
  split; [vm_compute; reflexivity|].
  exact (proj1 (proj1 (authenticate_failure_keeps_token _ _ _ _ _ Hrun) _ eq_refl)).
Defined.

(** [test_authenticate_sets_token], followed by two API calls. *)
Lemma bearer_token_on_every_request_witness :
  let c := Examples.ercot_client None false
             (Examples.fake_session
                [Some (Examples.fake_response 200 (Some (Examples.token_doc "tok123")));
                 Some (Examples.fake_response 200 (Some Examples.empty_doc));
                 Some (Examples.fake_response 200 (Some Examples.empty_doc))])
             [0; 1] in
  let c1 := (Ercot.authenticate "user" "pass" c).2 in
  let sent := Ercot.sent_since c1
                (Ercot.run_requests [Examples.get_version; Examples.list_products] c1) in
  (Ercot.authenticate "user" "pass" c).1 = Return "tok123" ∧
  length sent = 2%nat ∧
  Forall (λ r, Ercot.req_headers r !! "Authorization" = Some "Bearer tok123") sent.
Proof.
  intros c c1 sent.
  assert (Ercot.authenticate "user" "pass" c = (Return "tok123", c1))
    as Hrun by (vm_compute; reflexivity).
  split; [vm_compute; reflexivity|]. split; [vm_compute; reflexivity|].
  exact (proj1 (bearer_token_on_every_request _ _ _ _ _ Hrun) _).
Defined.

(** ** Where the API key travels *)

Lemma pubapi_request_sends cfg method path params headers json_body data stream s :
  ∃ r, PubApi.sent_since s
         (PubApi.request cfg method path params headers json_body data stream s).2 = [r] ∧
       PubApi.req_headers r = PubApi._headers cfg headers ∧
       PubApi.req_params r = PubApi._query_api_key cfg params ∧
       PubApi.req_json r = json_body ∧ PubApi.req_data r = data ∧
       PubApi.req_url r =
         rstrip_slash (PubApi.base_url cfg) +:+ "/" +:+ lstrip_slash path.
Proof.
  unfold PubApi.request, PubApi.send, PubApi.sent_since.
  destruct (PubApi.responses s) as [|[resp|] later]; simpl;
    [|destruct (raises_for_status _); simpl|];
    (eexists; split; [by rewrite drop_app_length|done]).
Qed.

(** C6: with a key configured in header mode every request carries it in
    the [Ocp-Apim-Subscription-Key] header, and the client never puts it
    in a [subscription-key] query parameter: the query parameters sent are
    the ones the call was given, unchanged.  With a key configured in query
    mode every request carries it in the [subscription-key] query
    parameter, and the client never puts it in the subscription header:
    [ErcotPublicDataClient] sends no such header, and [PubApiClient] sends
    the headers the call was given, unchanged.  (A configured key is a
    non-empty string: both clients test the key for truth, so that the
    empty string is no key.) *)
Theorem api_key_placement (k : string) :
  k ≠ "" →
  (∀ c method path params json stream r,
     Ercot.api_key (Ercot.config c) = Some k →
     r ∈ Ercot.sent_since c (Ercot._request method path params json stream c).2 →
     if Ercot.api_key_in_query (Ercot.config c)
     then Ercot.req_params r !! "subscription-key" = Some (PStr k) ∧
          Ercot.req_headers r !! "Ocp-Apim-Subscription-Key" = None
     else Ercot.req_headers r !! "Ocp-Apim-Subscription-Key" = Some k ∧
          Ercot.req_params r = default ∅ params) ∧
  (∀ cfg method path params headers json_body data stream s,
     PubApi.api_key cfg = Some k →
     ∃ r, PubApi.sent_since s
            (PubApi.request cfg method path params headers json_body data stream s).2
          = [r] ∧
          if PubApi.api_key_in_query cfg
          then PubApi.req_params r !! "subscription-key" = Some (PStr k) ∧
               PubApi.req_headers r = default ∅ headers
          else PubApi.req_headers r !! "Ocp-Apim-Subscription-Key" = Some (PStr k) ∧
               PubApi.req_params r = default ∅ params).
Proof.
  intros Hk. apply truthy_Some in Hk. split.
  - intros c method path params json stream r Hkey Hin.
    destruct (_request_effect method path params json stream c)
      as (_ & _ & [Hsame|(r' & Hone & Hh & Hp)]).
    + rewrite (sent_since_app _ _ [] ) in Hin by (by rewrite app_nil_r).
      by apply elem_of_nil in Hin.
    + rewrite (sent_since_app _ _ _ Hone) in Hin.
      apply list_elem_of_singleton in Hin as ->.
      rewrite Hh, Hp. unfold Ercot._headers, Ercot._query_api_key.
      rewrite Hkey, Hk. simpl.
      destruct (Ercot.api_key_in_query (Ercot.config c)); simpl.
      * split; [by rewrite lookup_insert_eq|].
        destruct (truthy (Ercot._id_token c)); [by rewrite lookup_insert_ne|done].
      * split; [|done].
        destruct (truthy (Ercot._id_token c));
          [rewrite lookup_insert_ne by done|]; by rewrite lookup_insert_eq.
  - intros cfg method path params headers json_body data stream s Hkey.
    destruct (pubapi_request_sends cfg method path params headers json_body
                data stream s) as (r & Hsent & Hh & Hp & _).
    exists r. split; [done|]. rewrite Hh, Hp.
    unfold PubApi._headers, PubApi._query_api_key. rewrite Hkey, Hk. simpl.
    destruct (PubApi.api_key_in_query cfg); simpl;
      (split; [by rewrite lookup_insert_eq|done]).
Qed.

(** [test_header_api_key] and [test_query_api_key]. *)
Lemma api_key_placement_witness :
  "abc123" ≠ "" ∧
  (let c := Examples.ercot_client (Some "abc123") false
              (Examples.fake_session [Some (Examples.fake_response 200 None)]) [0] in
   ∃ r, Ercot.sent_since c (Ercot.do_call Examples.get_version c) = [r] ∧
        Ercot.req_headers r !! "Ocp-Apim-Subscription-Key" = Some "abc123" ∧
        Ercot.req_params r = ∅) ∧
  (let c := Examples.ercot_client (Some "abc123") true
              (Examples.fake_session [Some (Examples.fake_response 200 None)]) [0] in
   ∃ r, Ercot.sent_since c (Ercot.do_call Examples.list_products c) = [r] ∧
        Ercot.req_params r !! "subscription-key" = Some (PStr "abc123") ∧
        Ercot.req_headers r !! "Ocp-Apim-Subscription-Key" = None).
Proof.
  assert ("abc123" ≠ "") as Hk by done.
  split; [exact Hk|]. split.
  - intros c. eexists. split; [vm_compute; reflexivity|].
    refine (proj1 (api_key_placement "abc123" Hk) c "GET" "/version" None None false _
              eq_refl _).
    vm_compute. apply list_elem_of_here.
  - intros c. eexists. split; [vm_compute; reflexivity|].
    refine (proj1 (api_key_placement "abc123" Hk) c "GET" "/" None None false _
              eq_refl _).
    vm_compute. apply list_elem_of_here.
Defined.

(** ** [iter_report_pages] stops where the page count says *)

Section pages.
Import Ercot PagesSpec.

Lemma natural_end_pos payloads : (1 ≤ natural_end payloads)%nat.
Proof. destruct payloads as [|d rest]; simpl; [lia|]. destruct (last_page d); lia. Qed.

(** [resume] in terms of [last_page]. *)
Lemma resume_last_page max_pages d g :
  resume max_pages d g =
  if match max_pages with
     | Some m => bool_decide (m ≤ fetched g + 1)
     | None => false
     end
  then None
  else if last_page d then None
       else Some {| page := page g + 1; fetched := fetched g + 1 |}.
Proof.
  unfold resume, last_page.
  destruct (match max_pages with Some m => _ | None => _ end); [done|].
  destruct (totalPages d), (currentPage d); try done.
Qed.

(** From the state reached after [k] pages, with [page = fetched = k]. *)
Lemma pages_from_count path params page_size max_pages (k : nat) payloads :
  let n := match max_pages with
           | Some m => Nat.min (Z.to_nat (Z.max 1 (m - Z.of_nat k))) (natural_end payloads)
           | None => natural_end payloads
           end in
  (n ≤ length payloads)%nat →
  let run := pages_from path params page_size max_pages
               {| page := Z.of_nat k; fetched := Z.of_nat k |}
               (Return <$> payloads) in
  yielded run = take n payloads ∧
  asked run = page_request path params page_size <$> seq k n ∧
  ending run = Return ().
Proof.
  revert k. induction payloads as [|d rest IH]; intros k n Hn.
  - pose proof (natural_end_pos []) as Hpos. subst n. simpl in Hn.
    destruct max_pages; simpl in Hn; lia.
  - pose proof (natural_end_pos rest) as Hpos.
    simpl. rewrite resume_last_page. simpl.
    destruct (match max_pages with
              | Some m => bool_decide (m ≤ Z.of_nat k + 1)
              | None => false
              end) eqn:Hcapped.
    { destruct max_pages as [m|]; [|done]. apply bool_decide_eq_true in Hcapped.
      assert (n = 1%nat) as ->; [|simpl; by rewrite take_0].
      subst n. simpl. destruct (last_page d); lia. }
    destruct (last_page d) eqn:Hl.
    { assert (n = 1%nat) as ->; [|simpl; by rewrite take_0].
      subst n. simpl. rewrite Hl. destruct max_pages; lia. }
    replace (Z.of_nat k + 1) with (Z.of_nat (S k)) by lia.
    assert (∃ n', n = S n' ∧
                  n' = match max_pages with
                       | Some m => Nat.min (Z.to_nat (Z.max 1 (m - Z.of_nat (S k))))
                                     (natural_end rest)
                       | None => natural_end rest
                       end) as (n' & -> & Hn').
    { subst n. simpl. rewrite Hl.
      destruct max_pages as [m|]; [|by eexists].
      apply bool_decide_eq_false in Hcapped.
      eexists. split; [|reflexivity]. lia. }
    specialize (IH (S k)). simpl in IH. rewrite <- Hn' in IH.
    destruct IH as (Hy & Ha & He); [simpl in Hn; lia|].
    simpl. split; [f_equal; exact Hy|]. split; [f_equal; exact Ha|exact He].
Qed.

(** With [max_pages=0] the generator still fetches and yields the first
    page, where the stated count [min(maxPages, natural-end)] is 0. *)
Lemma iter_report_pages_zero_cap_yields_one :
  let payloads := [Examples.page_of 2 0; Examples.page_of 2 1] in
  let run := iter_report_pages "/rpt" None 1 (Some 0) (Return <$> payloads) in
  yielded run = [Examples.page_of 2 0] ∧
  length (yielded run) ≠ pages_claimed (Some 0) payloads.
Proof. vm_compute. split; [reflexivity|discriminate]. Qed.

(** C5, as the generator does it: over payloads that reach the end, a full
    iteration yields the first [n] payloads, where [n] is the smaller of the
    natural end and the cap, a cap below 1 counting as 1; it makes exactly
    the [n] requests for pages [0 .. n-1], in that order, and then returns.
    For a cap of at least 1, or none, [n] is [min(maxPages, natural-end)]. *)
Theorem iter_report_pages_count path params page_size max_pages payloads :
  (pages_yielded max_pages payloads ≤ length payloads)%nat →
  let n := pages_yielded max_pages payloads in
  let run := iter_report_pages path params page_size max_pages (Return <$> payloads) in
  yielded run = take n payloads ∧
  length (yielded run) = n ∧
  asked run = page_request path params page_size <$> seq 0 n ∧
  ending run = Return () ∧
  (match max_pages with Some m => 1 ≤ m | None => True end →
   n = pages_claimed max_pages payloads).
Proof.
  intros Hn n run.
  pose proof (pages_from_count path params page_size max_pages 0 payloads) as H.
  simpl in H. assert (n ≤ length payloads)%nat as Hle by exact Hn.
  unfold pages_yielded in Hn.
  assert (∀ m : Z, m - Z.of_nat 0 = m) as Hm by (intros; lia).
  destruct H as (Hy & Ha & He).
  { destruct max_pages as [m|]; [rewrite Hm|]; exact Hn. }
  assert (n = match max_pages with
              | Some m => Nat.min (Z.to_nat (Z.max 1 (m - Z.of_nat 0))) (natural_end payloads)
              | None => natural_end payloads
              end) as Hn'.
  { subst n. unfold pages_yielded. destruct max_pages as [m|]; [by rewrite Hm|done]. }
  rewrite <- Hn' in Hy, Ha.
  split; [exact Hy|]. split.
  - unfold run, iter_report_pages.
    etrans; [apply (f_equal length Hy)|].
    rewrite length_take. lia.
  - split; [exact Ha|]. split; [exact He|].
    subst n. unfold pages_yielded, pages_claimed.
    destruct max_pages as [m|]; [|done]. intros Hge. f_equal. lia.
Qed.

End pages.

(** The two pages of [test_iter_report_pages_stops], read to the end: two
    payloads, the requests for pages 0 and 1, and no third request. *)
Lemma iter_report_pages_count_witness :
  let payloads := [Examples.page_of 2 0; Examples.page_of 2 1] in
  let run := Ercot.iter_report_pages "/rpt" None 1 None (Return <$> payloads) in
  (PagesSpec.pages_yielded None payloads ≤ length payloads)%nat ∧
  Ercot.yielded run = payloads ∧
  Ercot.asked run = [("/rpt", {["page" := PInt 0; "size" := PInt 1]});
                     ("/rpt", {["page" := PInt 1; "size" := PInt 1]})].
Proof.
  intros payloads run.
  assert (PagesSpec.pages_yielded None payloads ≤ length payloads)%nat as Hn
    by (vm_compute; lia).
  split; [exact Hn|].
  pose proof (iter_report_pages_count "/rpt" None 1 None payloads Hn)
    as (Hy & _ & Ha & _).
  split; [exact Hy|].
  etrans; [exact Ha|]. vm_compute. reflexivity.
Defined.

(** ** [PubApiClient.call]: argument binding *)

Section call_binding.
Import PubApi ListingSpec.

Lemma elem_of_names_in location op n :
  n ∈ names_in location op ↔
  ∃ p, p ∈ parameters op ∧ name p = n ∧ in_ p = Some location.
Proof.
  unfold names_in. rewrite elem_of_list_to_set, list_elem_of_fmap.
  split.
  - intros (p & -> & Hp). apply list_elem_of_filter in Hp as [Hin Hp]. eauto.
  - intros (p & Hp & <- & Hin). exists p. split; [done|].
    by apply list_elem_of_filter.
Qed.

(** [join] writes the names as the specification lists them. *)
Lemma separated_join sep names : separated sep names (join sep names).
Proof.
  induction names as [|n [|m rest] IH].
  - constructor.
  - constructor.
  - change (join sep (n :: m :: rest)) with (n +:+ sep +:+ join sep (m :: rest)).
    by constructor.
Qed.

(** C8: when a required path parameter of the operation is absent from
    the arguments (any parameter located in the path, in fact: [call] does
    not read the [required] flag), [call] raises the [ValueError] whose
    message is [Missing required path parameters: ] followed by the names
    of the absent path parameters, separated by a comma and a space: every
    absent required path parameter is named, each name once, nothing else
    is named, whatever else was passed, and nothing is sent.  Where the
    path parameters are all marked required, as OpenAPI has it, the names
    are exactly those of the absent required path parameters. *)
Theorem call_lists_every_missing_path_parameter
    operations cfg operation_id op kwargs s :
  operations !! operation_id = Some op →
  (∃ p, p ∈ parameters op ∧ in_ p = Some "path" ∧ kwargs !! name p = None) →
  ∃ missing text,
    call operations cfg operation_id kwargs s =
      Some (Raise (ValueError ("Missing required path parameters: " +:+ text)), s) ∧
    separated ", " missing text ∧
    NoDup missing ∧
    (∀ n, n ∈ missing ↔
          (∃ p, p ∈ parameters op ∧ name p = n ∧ in_ p = Some "path") ∧
          kwargs !! n = None) ∧
    (∀ p, p ∈ parameters op → in_ p = Some "path" → required p = true →
          kwargs !! name p = None → name p ∈ missing) ∧
    ((∀ p, p ∈ parameters op → in_ p = Some "path" → required p = true) →
     ∀ n, n ∈ missing ↔
          ∃ p, p ∈ parameters op ∧ name p = n ∧ in_ p = Some "path" ∧
               required p = true ∧ kwargs !! n = None).
Proof.
  intros Hop (p & Hp & Hin & Habsent).
  set (missing := filter (λ n, kwargs !! n = None) (elements (names_in "path" op))).
  exists missing, (join ", " missing).
  assert (∀ n, n ∈ missing ↔
               (∃ p, p ∈ parameters op ∧ name p = n ∧ in_ p = Some "path") ∧
               kwargs !! n = None) as Hmem.
  { intros n. unfold missing.
    rewrite list_elem_of_filter, elem_of_elements, elem_of_names_in. tauto. }
  split; [|split; [apply separated_join|split; [|split; [exact Hmem|split]]]].
  - unfold call. rewrite Hop. cbn zeta. fold missing.
    case_bool_decide as Hnil; [|done].
    exfalso. assert (name p ∈ @nil string) as Hbad; [|by apply elem_of_nil in Hbad].
    rewrite <- Hnil. apply Hmem. eauto.
  - apply NoDup_filter, NoDup_elements.
  - intros q Hq Hqin _ Hqabsent. apply Hmem. eauto.
  - intros Hall n. rewrite Hmem. split.
    + intros [(q & Hq & Hn & Hqin) Hnone]. exists q. eauto 10.
    + intros (q & Hq & Hn & Hqin & _ & Hnone). eauto.
Qed.

Lemma pop_all_thrice op (kwargs : gmap string pyval) :
  (pop_all (names_in "header" op)
     (pop_all (names_in "query" op)
        (pop_all (names_in "path" op) kwargs).2).2).2 = undeclared op kwargs.
Proof.
  unfold pop_all, undeclared, declared. simpl.
  apply map_eq. intros i. apply option_eq. intros x.
  rewrite !map_lookup_filter_Some. simpl.
  rewrite !not_elem_of_union. tauto.
Qed.

Lemma sent_since_refl s : sent_since s s = [].
Proof. unfold sent_since. apply drop_all. Qed.

(** What [call] did when the session received a request. *)
Lemma call_sent operations cfg operation_id op kwargs s out s' r :
  operations !! operation_id = Some op →
  call operations cfg operation_id kwargs s = Some (out, s') →
  r ∈ sent_since s s' →
  (∀ n, n ∈ names_in "path" op → is_Some (kwargs !! n)) ∧
  req_data r = default PNone (undeclared op kwargs !! "data") ∧
  req_json r = (if takes_body op kwargs
                then default PNone (undeclared op kwargs !! "body")
                else default PNone (undeclared op kwargs !! "json")) ∧
  (if takes_body op kwargs
   then delete "body" (delete "data" (delete "json" (undeclared op kwargs)))
   else delete "data" (delete "json" (undeclared op kwargs))) = ∅ ∧
  ∃ filled,
    format (path op) (filter (λ kv, kv.1 ∈ names_in "path" op) kwargs)
      = Some (Return filled) ∧
    req_url r = rstrip_slash (base_url cfg) +:+ "/" +:+ lstrip_slash filled.
Proof.
  intros Hop Hcall Hr. unfold call in Hcall. rewrite Hop in Hcall.
  simpl in Hcall.
  case_bool_decide as Hmissing; simpl in Hcall;
    [|injection Hcall as _ <-; rewrite sent_since_refl in Hr;
      by apply elem_of_nil in Hr].
  pose proof (pop_all_thrice op kwargs) as Hrest. unfold pop_all in Hrest.
  simpl in Hrest. rewrite Hrest in Hcall. clear Hrest.
  unfold pop_or_None in Hcall. simpl in Hcall.
  rewrite (lookup_delete_ne _ "json" "data") in Hcall by done.
  fold (takes_body op kwargs) in Hcall.
  split.
  { intros n Hn. destruct (kwargs !! n) eqn:Hk; [by eexists|].
    assert (n ∈ @nil string) as Hbad; [|by apply elem_of_nil in Hbad].
    rewrite <- Hmissing. apply list_elem_of_filter. split; [done|].
    by apply elem_of_elements. }
  destruct (takes_body op kwargs); simpl in Hcall.
  - rewrite !(lookup_delete_ne _ _ "body") in Hcall by done.
    case_bool_decide as Hleft; simpl in Hcall;
      [|injection Hcall as _ <-; rewrite sent_since_refl in Hr;
        by apply elem_of_nil in Hr].
    destruct (format _ _) as [[filled|e]|] eqn:Hfmt;
      [|injection Hcall as _ <-; rewrite sent_since_refl in Hr;
        by apply elem_of_nil in Hr|discriminate Hcall].
    injection Hcall as Hcall.
    match type of Hcall with request ?c ?m ?p ?q ?h ?j ?d ?st ?s = _ =>
      destruct (pubapi_request_sends c m p q h j d st s)
        as (r' & Hsent & _ & _ & Hj & Hd & Hu) end.
    rewrite Hcall in Hsent. simpl in Hsent. rewrite Hsent in Hr.
    apply list_elem_of_singleton in Hr as ->.
    split; [done|]. split; [done|]. split; [done|]. by exists filled.
  - case_bool_decide as Hleft; simpl in Hcall;
      [|injection Hcall as _ <-; rewrite sent_since_refl in Hr;
        by apply elem_of_nil in Hr].
    destruct (format _ _) as [[filled|e]|] eqn:Hfmt;
      [|injection Hcall as _ <-; rewrite sent_since_refl in Hr;
        by apply elem_of_nil in Hr|discriminate Hcall].
    injection Hcall as Hcall.
    match type of Hcall with request ?c ?m ?p ?q ?h ?j ?d ?st ?s = _ =>
      destruct (pubapi_request_sends c m p q h j d st s)
        as (r' & Hsent & _ & _ & Hj & Hd & Hu) end.
    rewrite Hcall in Hsent. simpl in Hsent. rewrite Hsent in Hr.
    apply list_elem_of_singleton in Hr as ->.
    split; [done|]. split; [done|]. split; [done|]. by exists filled.
Qed.

(** What is left of the arguments when [call] looks for unexpected ones. *)
Lemma call_unfolded operations cfg operation_id op kwargs s :
  operations !! operation_id = Some op →
  call operations cfg operation_id kwargs s =
  let missing := filter (λ n, kwargs !! n = None) (elements (names_in "path" op)) in
  if negb (bool_decide (missing = [])) then
    Some (Raise (ValueError ("Missing required path parameters: " +:+
                             join ", " missing)), s)
  else if negb (bool_decide (leftover op kwargs = ∅)) then
    Some (Raise (ValueError ("Unexpected parameters for " +:+ operation_id +:+
                             ": " +:+ join ", " (sorted_keys (leftover op kwargs)))), s)
  else
    match format (path op) (pop_all (names_in "path" op) kwargs).1 with
    | None => None
    | Some (Raise e) => Some (Raise e, s)
    | Some (Return filled) =>
        Some (request cfg (method op) filled
                (Some (query_arguments op kwargs))
                (if bool_decide (header_arguments op kwargs = ∅) then None
                 else Some (header_arguments op kwargs))
                (if takes_body op kwargs
                 then default PNone (undeclared op kwargs !! "body")
                 else default PNone (undeclared op kwargs !! "json"))
                (default PNone (undeclared op kwargs !! "data")) false s)
    end.
Proof.
  intros Hop. unfold call. rewrite Hop. cbn zeta.
  destruct (negb (bool_decide (filter _ (elements (names_in "path" op)) = []))); [done|].
  pose proof (pop_all_thrice op kwargs) as Hrest.
  unfold leftover, query_arguments, header_arguments.
  unfold pop_all in *. simpl in *. rewrite Hrest. clear Hrest.
  unfold pop_or_None. simpl.
  rewrite (lookup_delete_ne _ "json" "data") by done.
  fold (takes_body op kwargs).
  destruct (takes_body op kwargs); simpl; [|done].
  by rewrite !(lookup_delete_ne _ _ "body") by done.
Qed.

(** An operation that declares no request body is called with [json=] and
    [data=]: both are sent. *)
Lemma call_forwards_json_without_request_body :
  requestBody Examples.get_version_op = false ∧
  ∃ r, call {[ "getVersion" := Examples.get_version_op ]}
         (Examples.pubapi_config None false) "getVersion"
         {[ "json" := PObj "{'a': 1}"; "data" := PStr "raw" ]}
         (Examples.pubapi_session [Some Examples.ok])
       = Some (Return Examples.ok, {| requests := [r]; responses := [] |}) ∧
       req_json r = PObj "{'a': 1}" ∧ req_data r = PStr "raw".
Proof. split; [reflexivity|]. eexists. vm_compute. repeat split. Qed.

(** C3, as [call] does it: [json=] and [data=] are taken from the arguments
    whether or not the operation declares a request body, and sent as they
    are: a call whose path parameters are there, whose path template can
    be filled and whose other undeclared arguments are [json], [data] and
    a [body] that is taken, sends its request with them.  [body=] is taken
    as the JSON body only when the operation declares a request body and
    neither [json] nor [data] was given, and otherwise it makes [call]
    raise [ValueError] without sending anything. *)
Theorem call_body_arguments operations cfg operation_id op kwargs s :
  operations !! operation_id = Some op →
  (∀ out s' r,
     call operations cfg operation_id kwargs s = Some (out, s') →
     r ∈ sent_since s s' →
     req_data r = default PNone (undeclared op kwargs !! "data") ∧
     req_json r = (if takes_body op kwargs
                   then default PNone (undeclared op kwargs !! "body")
                   else default PNone (undeclared op kwargs !! "json"))) ∧
  (is_Some (undeclared op kwargs !! "body") →
   takes_body op kwargs = false →
   ∃ msg, call operations cfg operation_id kwargs s
          = Some (Raise (ValueError msg), s)) ∧
  ((∀ n, n ∈ names_in "path" op → is_Some (kwargs !! n)) →
   (∀ k, is_Some (undeclared op kwargs !! k) →
         k = "json" ∨ k = "data" ∨ (k = "body" ∧ takes_body op kwargs = true)) →
   ∀ filled,
     format (path op) (filter (λ kv, kv.1 ∈ names_in "path" op) kwargs)
       = Some (Return filled) →
     ∃ out s' r,
       call operations cfg operation_id kwargs s = Some (out, s') ∧
       sent_since s s' = [r] ∧
       req_data r = default PNone (undeclared op kwargs !! "data") ∧
       req_json r = (if takes_body op kwargs
                     then default PNone (undeclared op kwargs !! "body")
                     else default PNone (undeclared op kwargs !! "json")) ∧
       req_url r = rstrip_slash (base_url cfg) +:+ "/" +:+ lstrip_slash filled).
Proof.
  intros Hop. split; [|split].
  - intros out s' r Hcall Hr.
    destruct (call_sent _ _ _ _ _ _ _ _ _ Hop Hcall Hr) as (_ & Hd & Hj & _).
    by split.
  - intros [v Hbody] Htakes. unfold call. rewrite Hop. simpl.
    case_bool_decide as Hmissing; simpl; [|by eexists].
    pose proof (pop_all_thrice op kwargs) as Hrest. unfold pop_all in Hrest.
    simpl in Hrest. rewrite Hrest. clear Hrest.
    unfold pop_or_None. simpl.
    rewrite (lookup_delete_ne _ "json" "data") by done.
    fold (takes_body op kwargs). rewrite Htakes. simpl.
    case_bool_decide as Hleft; simpl; [|by eexists].
    exfalso.
    assert (delete "data" (delete "json" (undeclared op kwargs)) !! "body" = Some v)
      as Hin by (by rewrite !lookup_delete_ne by done).
    rewrite Hleft in Hin. by rewrite lookup_empty in Hin.
  - intros Hpath Hextra filled Hfmt.
    rewrite (call_unfolded _ _ _ _ _ _ Hop). cbn zeta.
    assert (filter (λ n, kwargs !! n = None) (elements (names_in "path" op)) = [])
      as ->.
    { destruct (filter (λ n, kwargs !! n = None) (elements (names_in "path" op)))
        as [|n rest] eqn:Hmissing; [done|]. exfalso.
      assert (n ∈ filter (λ n, kwargs !! n = None) (elements (names_in "path" op)))
        as Hn by (rewrite Hmissing; apply list_elem_of_here).
      apply list_elem_of_filter in Hn as [Hnone Hn].
      apply elem_of_elements in Hn. destruct (Hpath n Hn) as [v Hv]. congruence. }
    assert (leftover op kwargs = ∅) as ->.
    { apply map_empty. intros k. apply eq_None_not_Some. unfold leftover.
      destruct (takes_body op kwargs) eqn:Htakes.
      - rewrite !lookup_delete_is_Some. intros (Hb & Hd & Hj & Hk).
        destruct (Hextra k Hk) as [->|[->|[-> _]]]; done.
      - rewrite !lookup_delete_is_Some. intros (Hd & Hj & Hk).
        destruct (Hextra k Hk) as [->|[->|[_ ?]]]; done. }
    rewrite !bool_decide_eq_true_2 by done. cbn [negb].
    unfold pop_all. cbn [fst]. rewrite Hfmt.
    match goal with |- context [request ?c ?m ?p ?q ?h ?j ?d ?st ?s0] =>
      destruct (pubapi_request_sends c m p q h j d st s0)
        as (r & Hsent & _ & _ & Hj & Hd & Hu);
      destruct (request c m p q h j d st s0) as [out s'] end.
    exists out, s', r. done.
Qed.

End call_binding.

(** For an operation that declares no request body: [json=] and [data=]
    are sent, [body=] is refused. *)
Lemma call_body_arguments_witness :
  (∃ out s' r,
     PubApi.call {[ "getVersion" := Examples.get_version_op ]}
       (Examples.pubapi_config None false) "getVersion"
       {[ "json" := PObj "{'a': 1}"; "data" := PStr "raw" ]}
       (Examples.pubapi_session [Some Examples.ok]) = Some (out, s') ∧
     PubApi.sent_since (Examples.pubapi_session [Some Examples.ok]) s' = [r] ∧
     PubApi.req_data r = PStr "raw" ∧ PubApi.req_json r = PObj "{'a': 1}") ∧
  (∃ msg,
     PubApi.call {[ "getVersion" := Examples.get_version_op ]}
       (Examples.pubapi_config None false) "getVersion"
       {[ "body" := PObj "{'a': 1}" ]}
       (Examples.pubapi_session [Some Examples.ok])
     = Some (Raise (ValueError msg), Examples.pubapi_session [Some Examples.ok])).
Proof.
  assert (({[ "getVersion" := Examples.get_version_op ]}
             : gmap string PubApi.operation) !! "getVersion"
          = Some Examples.get_version_op) as Hop by (vm_compute; reflexivity).
  split.
  - pose proof (proj2 (proj2 (call_body_arguments _ (Examples.pubapi_config None false)
                   _ _ {[ "json" := PObj "{'a': 1}"; "data" := PStr "raw" ]}
                   (Examples.pubapi_session [Some Examples.ok]) Hop))) as Haccept.
    destruct (Haccept) with (filled := "/version")
      as (out & s' & r & Hcall & Hsent & Hd & Hj & _).
    + intros n Hn. apply elem_of_names_in in Hn as (p & Hp & _).
      apply elem_of_nil in Hp. destruct Hp.
    + intros k [v Hk]. apply map_lookup_filter_Some in Hk as [Hk _].
      apply lookup_insert_Some in Hk as [[<- _]|[_ Hk]]; [by left|].
      apply lookup_singleton_Some in Hk as [<- _]. right. by left.
    + vm_compute. reflexivity.
    + exists out, s', r. split; [exact Hcall|]. split; [exact Hsent|].
      split; [exact Hd|exact Hj].
  - refine (proj1 (proj2 (call_body_arguments _ (Examples.pubapi_config None false) _ _
                   {[ "body" := PObj "{'a': 1}" ]}
                   (Examples.pubapi_session [Some Examples.ok]) Hop)) _ _).
    + exists (PObj "{'a': 1}"). vm_compute. reflexivity.
    + vm_compute. reflexivity.
Defined.

(** A list without duplicates that holds two names and nothing else. *)
Lemma two_names (a b : string) (l : list string) :
  a ≠ b → NoDup l → (∀ n, n ∈ l ↔ n = a ∨ n = b) → l = [a; b] ∨ l = [b; a].
Proof.
  intros Hne Hnd Hmem.
  apply Permutation_length_2_inv. symmetry. apply NoDup_Permutation; [done| |].
  - apply NoDup_cons. split; [by intros ->%list_elem_of_singleton|].
    apply NoDup_singleton.
  - intros n. rewrite Hmem, elem_of_cons, list_elem_of_singleton. done.
Qed.

(** Two of three path parameters are absent, a query parameter and a stray
    argument are present: the message names the two, in the order in which
    the set of path parameters gives them. *)
Lemma call_lists_every_missing_path_parameter_witness :
  ∃ text,
    PubApi.call {[ "getPart" := Examples.get_part ]}
      (Examples.pubapi_config None false) "getPart"
      {[ "docId" := PInt 7; "page" := PInt 2; "stray" := PNone ]}
      (Examples.pubapi_session [])
    = Some (Raise (ValueError ("Missing required path parameters: " +:+ text)),
            Examples.pubapi_session []) ∧
    (text = "productId, part" ∨ text = "part, productId").
Proof.
  assert (({[ "getPart" := Examples.get_part ]} : gmap string PubApi.operation)
            !! "getPart" = Some Examples.get_part) as Hop
    by (vm_compute; reflexivity).
  assert (∃ p, p ∈ PubApi.parameters Examples.get_part ∧
               PubApi.in_ p = Some "path" ∧
               ({[ "docId" := PInt 7; "page" := PInt 2; "stray" := PNone ]}
                  : gmap string pyval) !! PubApi.name p = None) as Habsent.
  { exists {| PubApi.name := "part"; PubApi.in_ := Some "path"; PubApi.required := true |}.
    split; [|split; vm_compute; reflexivity].
    do 2 apply list_elem_of_further. apply list_elem_of_here. }
  pose proof (call_lists_every_missing_path_parameter _
                (Examples.pubapi_config None false) _ _ _
                (Examples.pubapi_session []) Hop Habsent)
    as (missing & text & Hcall & Hsep & Hnodup & Hmem & _).
  exists text. split; [exact Hcall|].
  assert (missing = ["productId"; "part"] ∨ missing = ["part"; "productId"]) as Hl.
  { apply two_names; [discriminate|exact Hnodup|].
    intros n. rewrite Hmem. split.
    - intros [(p & Hp & <- & Hin) Hnone].
      apply elem_of_cons in Hp as [->|Hp]; [by left|].
      apply elem_of_cons in Hp as [->|Hp];
        [vm_compute in Hnone; discriminate Hnone|].
      apply elem_of_cons in Hp as [->|Hp]; [by right|].
      apply list_elem_of_singleton in Hp as ->. discriminate Hin.
    - intros [->| ->]; (split; [|vm_compute; reflexivity]); eexists.
      + split; [apply list_elem_of_here|]. split; reflexivity.
      + split; [do 2 apply list_elem_of_further; apply list_elem_of_here|].
        split; reflexivity. }
  destruct Hl as [-> | ->]; [left|right].
  - inversion Hsep as [| |? ? ? ? Hrest]; subst. inversion Hrest; subst. reflexivity.
  - inversion Hsep as [| |? ? ? ? Hrest]; subst. inversion Hrest; subst. reflexivity.
Defined.

(** ** [str.format] inserts values as they are *)

Section path_format.
Import PubApi PathSpec.

Lemma append_assoc (a b c : string) : (a +:+ b) +:+ c = a +:+ (b +:+ c).
Proof.
  induction a as [|x a IH]; [done|].
  change (String x ((a +:+ b) +:+ c) = String x (a +:+ (b +:+ c))).
  by rewrite IH.
Qed.

Lemma append_empty_r (a : string) : a +:+ "" = a.
Proof.
  induction a as [|x a IH]; [done|].
  change (String x (a +:+ "") = String x a). by rewrite IH.
Qed.

Lemma then_Return_empty k : then_ (Return "") k = k.
Proof. by destruct k as [[?|?]|]. Qed.

Lemma then_Return_append a b k :
  then_ (Return a) (then_ (Return b) k) = then_ (Return (a +:+ b)) k.
Proof.
  destruct k as [[t|e]|]; [|done|done]. unfold then_. by rewrite append_assoc.
Qed.

(** Literal text without braces is copied. *)
Lemma format_from_literal values text rest :
  all_chars (λ c, negb (brace c)) text = true →
  format_from values None (text +:+ rest) =
  then_ (Return text) (format_from values None rest).
Proof.
  induction text as [|c text IH]; intros Hok.
  - by rewrite then_Return_empty.
  - simpl in Hok. apply andb_prop in Hok as [Hc Hok]. unfold brace in Hc.
    apply negb_true_iff, orb_false_elim in Hc as [Hopen Hclose].
    simpl. rewrite Hopen, Hclose, IH by done.
    by destruct (format_from values None rest) as [[tail|e]|].
Qed.

(** Inside a field, a name without braces and field syntax is read up to
    the closing brace, and then looked up. *)
Lemma format_from_name values read name rest :
  all_chars (λ c, negb (brace c) && negb (field_syntax c)) name = true →
  format_from values (Some read) (name +:+ String "}" rest) =
  then_ (get_field (read +:+ name) values) (format_from values None rest).
Proof.
  revert read. induction name as [|c name IH]; intros read Hok.
  - simpl. by rewrite append_empty_r.
  - simpl in Hok. apply andb_prop in Hok as [Hc Hok].
    apply andb_prop in Hc as [Hbrace Hsyn]. unfold brace in Hbrace.
    apply negb_true_iff, orb_false_elim in Hbrace as [Hopen Hclose].
    apply negb_true_iff in Hsyn.
    simpl. rewrite Hopen, Hclose, Hsyn, IH by done.
    by rewrite append_assoc.
Qed.

Lemma format_from_field values name rest :
  all_chars (λ c, negb (brace c) && negb (field_syntax c)) name = true →
  format_from values None (("{" +:+ name +:+ "}") +:+ rest) =
  then_ (get_field name values) (format_from values None rest).
Proof.
  intros Hok.
  pose proof (format_from_name values "" name rest Hok) as Hname.
  change ("" +:+ name) with name in Hname. rewrite <- Hname.
  rewrite append_assoc.
  change ("{" +:+ (name +:+ "}") +:+ rest)
    with (String "{" ((name +:+ "}") +:+ rest)).
  rewrite append_assoc.
  change ("}" +:+ rest) with (String "}" rest).
  destruct name as [|c name]; [done|].
  simpl in Hok. apply andb_prop in Hok as [Hc _].
  apply andb_prop in Hc as [Hbrace _]. unfold brace in Hbrace.
  apply negb_true_iff, orb_false_elim in Hbrace as [Hopen _].
  clear Hname.
  change (String c name +:+ String "}" rest)
    with (String c (name +:+ String "}" rest)).
  generalize (name +:+ String "}" rest). intros tail.
  destruct c as [[] [] [] [] [] [] [] []]; try reflexivity.
  discriminate Hopen.
Qed.

(** [format] on a well-formed template goes piece by piece. *)
Lemma format_template values pieces :
  Forall (λ p, well_formed p = true) pieces →
  format (template_text pieces) values = render values pieces.
Proof.
  unfold format. induction 1 as [|p pieces Hp _ IH]; [done|].
  change (template_text (p :: pieces))
    with (piece_text p +:+ template_text pieces).
  change (render values (p :: pieces))
    with (then_ match p with
                | Lit text => Return text
                | Field name => get_field name values
                end (render values pieces)).
  destruct p as [text|name]; unfold piece_text, well_formed in *.
  - by rewrite format_from_literal, IH.
  - apply andb_prop in Hp as [Hp _]. by rewrite format_from_field, IH.
Qed.

(** When all pieces are rendered, the result is the template with each
    placeholder replaced by [str] of its value. *)
Lemma render_Return values pieces filled :
  Forall (λ p, well_formed p = true) pieces →
  render values pieces = Some (Return filled) →
  filled = fill id values pieces ∧
  ∀ name, Field name ∈ pieces → is_Some (values !! name).
Proof.
  intros Hwf. revert filled.
  induction Hwf as [|p pieces Hp _ IH]; intros filled Hr.
  - injection Hr as <-. split; [done|]. intros name Hin.
    by apply elem_of_nil in Hin.
  - simpl in Hr.
    destruct (render values pieces) as [[tail|e]|] eqn:Htail.
    + destruct (IH tail eq_refl) as [-> Hall].
      destruct p as [text|name]; simpl in Hr.
      * injection Hr as <-. split; [done|]. intros name Hin.
        apply elem_of_cons in Hin as [?|Hin]; [done|by apply Hall].
      * simpl in Hp. apply andb_prop in Hp as [_ Hdig].
        apply negb_true_iff in Hdig. unfold get_field in Hr.
        rewrite Hdig in Hr.
        destruct (values !! name) as [v|] eqn:Hv; [|done].
        injection Hr as <-. simpl. rewrite Hv. split; [done|].
        intros name' Hin. apply elem_of_cons in Hin as [[= ->]|Hin];
          [by rewrite Hv|by apply Hall].
    + exfalso. destruct p as [text|name]; simpl in Hr; [done|].
      by destruct (get_field name values).
    + exfalso. destruct p as [text|name]; simpl in Hr; [done|].
      by destruct (get_field name values).
Qed.

Lemma fill_agree encode (values values' : gmap string pyval) pieces :
  (∀ name, Field name ∈ pieces → values !! name = values' !! name) →
  fill encode values pieces = fill encode values' pieces.
Proof.
  induction pieces as [|p pieces IH]; intros Hagree; [done|].
  simpl. rewrite IH.
  - destruct p as [text|name]; [done|]. rewrite Hagree; [done|].
    apply list_elem_of_here.
  - intros name Hin. apply Hagree. by apply list_elem_of_further.
Qed.

(** A value with a slash and a space goes into the path as it is, where
    the percent-encoded text would be [a%2Fb%20c]. *)
Lemma call_path_value_not_percent_encoded :
  let kwargs : gmap string pyval := {[ "emilId" := PStr "a/b c" ]} in
  let pieces := [Lit "/archive/"; Field "emilId"] in
  ∃ r, call {[ "getArchive" := Examples.get_archive_op ]}
         (Examples.pubapi_config None false) "getArchive" kwargs
         (Examples.pubapi_session [Some Examples.ok])
       = Some (Return Examples.ok, {| requests := [r]; responses := [] |}) ∧
       path Examples.get_archive_op = template_text pieces ∧
       req_url r = "https://api.ercot.com/api/public-reports/archive/a/b c" ∧
       fill percent_encode kwargs pieces = "/archive/a%2Fb%20c" ∧
       req_url r ≠ "https://api.ercot.com/api/public-reports/" +:+
                   lstrip_slash (fill percent_encode kwargs pieces).
Proof.
  eexists. vm_compute. repeat split. discriminate.
Qed.

(** C4, as [call] does it: for a path template of literal text and
    [{name}] placeholders, the URL of the request sent is the base URL, a
    slash, and the template with each placeholder replaced by [str()] of
    the argument of that name, character for character: nothing is
    percent-encoded. *)
Theorem call_fills_path_with_str
    operations cfg operation_id op kwargs s pieces out s' r :
  operations !! operation_id = Some op →
  path op = template_text pieces →
  Forall (λ p, well_formed p = true) pieces →
  call operations cfg operation_id kwargs s = Some (out, s') →
  r ∈ sent_since s s' →
  req_url r = rstrip_slash (base_url cfg) +:+ "/" +:+
              lstrip_slash (fill id kwargs pieces) ∧
  ∀ name, Field name ∈ pieces → is_Some (kwargs !! name).
Proof.
  intros Hop Hpath Hwf Hcall Hr.
  destruct (call_sent _ _ _ _ _ _ _ _ _ Hop Hcall Hr)
    as (_ & _ & _ & _ & filled & Hfmt & Hurl).
  rewrite Hpath, format_template in Hfmt by done.
  apply render_Return in Hfmt as [-> Hbound]; [|done].
  assert (∀ name, Field name ∈ pieces →
            filter (λ kv : string * pyval, kv.1 ∈ names_in "path" op) kwargs !! name
            = kwargs !! name) as Hagree.
  { intros name Hin. destruct (Hbound name Hin) as [v Hv]. rewrite Hv.
    by apply map_lookup_filter_Some in Hv as [-> _]. }
  split.
  - rewrite Hurl. by rewrite (fill_agree id _ kwargs pieces Hagree).
  - intros name Hin. rewrite <- Hagree by done. by apply Hbound.
Qed.

End path_format.

(** The value [a/b c] for [/archive/{emilId}]. *)
Lemma call_fills_path_with_str_witness :
  ∃ r, PubApi.call {[ "getArchive" := Examples.get_archive_op ]}
         (Examples.pubapi_config None false) "getArchive"
         {[ "emilId" := PStr "a/b c" ]}
         (Examples.pubapi_session [Some Examples.ok])
       = Some (Return Examples.ok,
               {| PubApi.requests := [r]; PubApi.responses := [] |}) ∧
       PubApi.req_url r = "https://api.ercot.com/api/public-reports/archive/a/b c".
Proof.
  assert (({[ "getArchive" := Examples.get_archive_op ]}
             : gmap string PubApi.operation) !! "getArchive"
          = Some Examples.get_archive_op) as Hop by (vm_compute; reflexivity).
  assert (PubApi.path Examples.get_archive_op =
          PathSpec.template_text [PathSpec.Lit "/archive/"; PathSpec.Field "emilId"])
    as Hpath by reflexivity.
  assert (Forall (λ p, PathSpec.well_formed p = true)
            [PathSpec.Lit "/archive/"; PathSpec.Field "emilId"]) as Hwf
    by (repeat constructor).
  set (r := {| PubApi.req_method := "GET";
               PubApi.req_url := "https://api.ercot.com/api/public-reports/archive/a/b c";
               PubApi.req_headers := ∅; PubApi.req_params := ∅;
               PubApi.req_json := PNone; PubApi.req_data := PNone;
               PubApi.req_timeout := 30; PubApi.req_stream := false |}).
  assert (PubApi.call {[ "getArchive" := Examples.get_archive_op ]}
            (Examples.pubapi_config None false) "getArchive"
            {[ "emilId" := PStr "a/b c" ]}
            (Examples.pubapi_session [Some Examples.ok])
          = Some (Return Examples.ok,
                  {| PubApi.requests := [r]; PubApi.responses := [] |})) as Hcall
    by (vm_compute; reflexivity).
  assert (r ∈ PubApi.sent_since (Examples.pubapi_session [Some Examples.ok])
                {| PubApi.requests := [r]; PubApi.responses := [] |}) as Hr
    by apply list_elem_of_here.
  exists r. split; [exact Hcall|].
  exact (proj1 (call_fills_path_with_str _ _ _ _ _ _ _ _ _ _
                  Hop Hpath Hwf Hcall Hr)).
Defined.

(** ** [update_archive]: downloads, retries, and going on *)

Section archive.
Import Ercot.

Lemma remove_each_keeps dir names st :
  downloaded (remove_each dir names st) = downloaded st ∧
  replies (remove_each dir names st) = replies st.
Proof.
  unfold remove_each. revert st.
  induction names as [|n names IH]; intros st; [done|].
  simpl. destruct (IH (print ("Deleted: " +:+ dir +:+ "/" +:+ n)
                         (with_fs (alter (delete n) dir (fs st)) st))) as [-> ->].
  done.
Qed.

(** Every attempt starts with one call of [download_bundle], for this
    document id alone, and makes no other. *)
Lemma try_body_downloads product_id report_id st :
  downloaded (try_body product_id report_id st).2 =
  downloaded st ++ [(product_id, [report_id])].
Proof.
  unfold try_body, download_bundle.
  destruct (replies st) as [|[zip|e] later]; simpl; try done.
  destruct (exists_ _ _); simpl; [done|].
  destruct (mkdir _ _) as [d|e]; simpl; [|done].
  destruct zip as [data|members]; simpl; [done|].
  destruct (extract_each _ _ _) as [[[]|e] d']; simpl; [|done].
  by rewrite (proj1 (remove_each_keeps _ _ _)).
Qed.

(** An attempt whose download fails changes neither the disk nor the
    output. *)
Lemma try_body_download_fails product_id report_id st e later :
  replies st = Raise e :: later →
  try_body product_id report_id st =
  (Raise e, {| fs := fs st; replies := later;
               downloaded := downloaded st ++ [(product_id, [report_id])];
               printed := printed st |}).
Proof. intros Hr. unfold try_body, download_bundle. by rewrite Hr. Qed.

(** An attempt for a directory that exists, when the download succeeds:
    the bundle is downloaded all the same, then dropped. *)
Lemma try_body_already_exists product_id report_id st zip later :
  replies st = Return zip :: later →
  is_Some (fs st !! save_dir product_id report_id) →
  try_body product_id report_id st =
  (Return (), {| fs := fs st; replies := later;
                 downloaded := downloaded st ++ [(product_id, [report_id])];
                 printed := printed st ++ [pretty report_id +:+ " already exist"] |}).
Proof.
  intros Hr Hdir. unfold try_body, download_bundle. rewrite Hr. simpl.
  unfold exists_. by rewrite bool_decide_eq_true_2.
Qed.

(** The retry loop ends within the fuel it is given; it makes between one
    and [max_retry - retry + 1] attempts, and all of them when it gives
    up. *)
Lemma while_not_done_attempts fuel max_retry retry product_id report_id st :
  0 ≤ retry ≤ max_retry →
  (Z.to_nat (max_retry - retry) < fuel)%nat →
  ∃ done st' n,
    while_not_done fuel max_retry retry product_id report_id st = Some (done, st') ∧
    (1 ≤ n ≤ S (Z.to_nat (max_retry - retry)))%nat ∧
    downloaded st' = downloaded st ++ replicate n (product_id, [report_id]) ∧
    (done = false → n = S (Z.to_nat (max_retry - retry))).
Proof.
  revert retry st. induction fuel as [|fuel IH]; intros retry st Hretry Hfuel;
    [lia|].
  simpl. pose proof (try_body_downloads product_id report_id st) as Hdl.
  destruct (try_body product_id report_id st) as [[[]|e] st1]; simpl in Hdl.
  - exists true, st1, 1%nat. split; [done|]. split; [lia|]. by split.
  - case_bool_decide as Hlt.
    + destruct (IH (retry + 1) (print "retrying" st1)) as (done & st' & n & Hrun & Hn & Hd & Hgive);
        [lia|lia|].
      exists done, st', (S n). split; [done|]. split; [lia|]. split.
      * rewrite Hd. simpl. rewrite Hdl. by rewrite <- app_assoc.
      * intros Hdone. rewrite (Hgive Hdone). lia.
    + exists false, st1, 1%nat. split; [done|]. split; [lia|]. split; [done|].
      intros _. replace (max_retry - retry) with 0 by lia. done.
Qed.

Lemma for_report_ids_attempts max_retry product_id ids st :
  0 ≤ max_retry →
  ∃ dones counts st',
    for_report_ids max_retry product_id ids st = Some (dones, st') ∧
    length dones = length ids ∧ length counts = length ids ∧
    Forall (λ n, (1 ≤ n ≤ S (Z.to_nat max_retry))%nat) counts ∧
    downloaded st' =
      downloaded st ++
      concat (zip_with (λ n id, replicate n (product_id, [id])) counts ids) ∧
    (∀ i, dones !! i = Some false → counts !! i = Some (S (Z.to_nat max_retry))).
Proof.
  intros Hmax. revert st. induction ids as [|id ids IH]; intros st.
  - exists [], [], st. simpl. rewrite app_nil_r. repeat split; try done.
  - cbn [for_report_ids].
    destruct (while_not_done_attempts (S (Z.to_nat max_retry)) max_retry 0
                product_id id st) as (done & st1 & n & Hrun & Hn & Hd & Hgive);
      [lia|lia|].
    replace (max_retry - 0) with max_retry in * by lia.
    rewrite Hrun.
    destruct (IH st1) as (dones & counts & st' & Hrest & Hld & Hlc & Hall & Hd' & Hgive').
    rewrite Hrest.
    exists (done :: dones), (n :: counts), st'.
    split; [done|]. split; [simpl; lia|]. split; [simpl; lia|].
    split; [by constructor|]. split.
    + rewrite Hd', Hd. simpl. by rewrite <- app_assoc.
    + intros [|i]; simpl; [|apply Hgive'].
      intros [= ->]. by rewrite Hgive.
Qed.

(** After [max_retry + 1] failed downloads the item is left, with nothing
    printed but the [retrying] lines. *)
Lemma while_not_done_gives_up product_id report_id st failures later :
  replies st = failures ++ later →
  length failures = S (Z.to_nat max_retry) →
  Forall (λ r, ∃ e, r = Raise e) failures →
  while_not_done (S (Z.to_nat max_retry)) max_retry 0 product_id report_id st =
  Some (false,
        {| fs := fs st; replies := later;
           downloaded := downloaded st ++
                         replicate (S (Z.to_nat max_retry)) (product_id, [report_id]);
           printed := printed st ++ replicate (Z.to_nat max_retry) "retrying" |}).
Proof.
  intros Hr Hlen Hall.
  destruct failures as [|r1 [|r2 [|r3 [|r4 [|]]]]]; try discriminate Hlen.
  apply Forall_cons in Hall as [[e1 ->] Hall].
  apply Forall_cons in Hall as [[e2 ->] Hall].
  apply Forall_cons in Hall as [[e3 ->] Hall].
  apply Forall_cons in Hall as [[e4 ->] _].
  simpl in Hr.
  change (Z.to_nat max_retry) with 3%nat. unfold max_retry.
  cbn -[try_body]. erewrite try_body_download_fails by exact Hr.
  cbn -[try_body]. erewrite try_body_download_fails by reflexivity.
  cbn -[try_body]. erewrite try_body_download_fails by reflexivity.
  cbn -[try_body]. erewrite try_body_download_fails by reflexivity.
  cbn. by rewrite <- !app_assoc.
Qed.

(** An item that is given up after all its retries prints what an item
    that succeeds on its last retry prints: three [retrying] lines, and no
    word of the failure; [update_archive] returns [None] both times. *)
Lemma update_archive_prints_no_failure :
  let boom := Raise ConnectionError in
  let lost := Examples.sync_start (Examples.disk_with "p" [])
                [boom; boom; boom; boom] in
  let late := Examples.sync_start (Examples.disk_with "p" [])
                [boom; boom; boom; Return (Archive [])] in
  ∃ a b,
    for_report_ids max_retry "p" [7] lost = Some ([false], a) ∧
    for_report_ids max_retry "p" [7] late = Some ([true], b) ∧
    update_archive "p" (Return (Examples.bundle_listing [7])) lost
      = Some (Return (), a) ∧
    update_archive "p" (Return (Examples.bundle_listing [7])) late
      = Some (Return (), b) ∧
    printed a = ["retrying"; "retrying"; "retrying"] ∧
    printed b = printed a.
Proof. eexists. eexists. vm_compute. repeat split. Qed.

(** C2, as [update_archive] does it: once the listing is there, it always
    runs to the end of the listing and returns; each document id, in
    listing order, gets at least one attempt and at most [max_retry + 1]
    (the first one and [max_retry] retries); an item left undone got
    exactly that many.  When the [max_retry + 1] downloads of an item all
    fail, the item is left without any notice but the [retrying] lines,
    and the loop goes on with the next id. *)
Theorem update_archive_bounded_retries product_id report ids st :
  bundles report = Some ids →
  (∃ dones counts st',
     for_report_ids max_retry product_id ids st = Some (dones, st') ∧
     update_archive product_id (Return report) st = Some (Return (), st') ∧
     length dones = length ids ∧ length counts = length ids ∧
     Forall (λ n, (1 ≤ n ≤ S (Z.to_nat max_retry))%nat) counts ∧
     downloaded st' =
       downloaded st ++
       concat (zip_with (λ n id, replicate n (product_id, [id])) counts ids) ∧
     (∀ i, dones !! i = Some false → counts !! i = Some (S (Z.to_nat max_retry)))) ∧
  (∀ report_id rest failures later,
     ids = report_id :: rest →
     replies st = failures ++ later →
     length failures = S (Z.to_nat max_retry) →
     Forall (λ r, ∃ e, r = Raise e) failures →
     for_report_ids max_retry product_id ids st =
       (λ r, (false :: r.1, r.2)) <$>
       for_report_ids max_retry product_id rest
         {| fs := fs st; replies := later;
            downloaded := downloaded st ++
                          replicate (S (Z.to_nat max_retry)) (product_id, [report_id]);
            printed := printed st ++ replicate (Z.to_nat max_retry) "retrying" |}).
Proof.
  intros Hids. split.
  - destruct (for_report_ids_attempts max_retry product_id ids st)
      as (dones & counts & st' & Hrun & Hrest); [done|].
    exists dones, counts, st'. split; [done|]. split; [|done].
    unfold update_archive. by rewrite Hids, Hrun.
  - intros report_id rest failures later -> Hr Hlen Hall.
    cbn [for_report_ids].
    rewrite (while_not_done_gives_up _ _ _ _ _ Hr Hlen Hall).
    by destruct (for_report_ids _ _ _ _) as [[dones st']|].
Qed.

(** A document whose directory exists is downloaded all the same. *)
Lemma update_archive_downloads_present_item :
  let st := Examples.sync_start (Examples.disk_with "np4-33-cd" [7])
              [Return Examples.bundle_zip] in
  is_Some (fs st !! save_dir "np4-33-cd" 7) ∧
  ∃ st', update_archive "np4-33-cd" (Return (Examples.bundle_listing [7])) st
         = Some (Return (), st') ∧
         downloaded st' = [("np4-33-cd", [7])] ∧
         printed st' = ["7 already exist"] ∧
         fs st' = fs st.
Proof.
  split; [eexists; vm_compute; reflexivity|].
  eexists. split; [vm_compute; reflexivity|].
  split; [vm_compute; reflexivity|]. split; vm_compute; reflexivity.
Qed.

(** C1, as [update_archive] does it: when the directory of every listed
    document exists and the downloads succeed, each document is downloaded
    once (the existence check comes after the download), nothing on the
    disk changes, every item is done at its first attempt, and the output
    is one [already exist] line per document. *)
Theorem update_archive_present_items product_id report ids st zips later :
  bundles report = Some ids →
  Forall (λ id, is_Some (fs st !! save_dir product_id id)) ids →
  replies st = (Return <$> zips) ++ later →
  length zips = length ids →
  let st' := {| fs := fs st; replies := later;
                downloaded := downloaded st ++ ((λ id, (product_id, [id])) <$> ids);
                printed := printed st ++
                           ((λ id, pretty id +:+ " already exist") <$> ids) |} in
  update_archive product_id (Return report) st = Some (Return (), st') ∧
  for_report_ids max_retry product_id ids st
    = Some (replicate (length ids) true, st').
Proof.
  intros Hids Hdirs Hr Hlen st'.
  assert (for_report_ids max_retry product_id ids st
          = Some (replicate (length ids) true, st')) as Hrun.
  { subst st'. clear Hids. revert st zips Hdirs Hr Hlen.
    induction ids as [|id ids IH]; intros st zips Hdirs Hr Hlen.
    - destruct zips; [|done]. simpl in Hr. simpl. rewrite !app_nil_r.
      destruct st; simpl in *. by rewrite Hr.
    - destruct zips as [|zip zips]; [done|]. simpl in Hr.
      apply Forall_cons in Hdirs as [Hdir Hdirs].
      cbn [for_report_ids].
      change (Z.to_nat max_retry) with 3%nat. cbn [while_not_done].
      rewrite (try_body_already_exists _ _ _ _ _ Hr Hdir).
      rewrite (IH _ zips); simpl; [|done|done|by injection Hlen].
      by rewrite <- !app_assoc. }
  split; [|done]. unfold update_archive. by rewrite Hids, Hrun.
Qed.

End archive.

(** The listing [1; 2; 3] where the download of 2 fails four times: 1 and 3
    are extracted, 2 is tried four times and left. *)
Lemma update_archive_bounded_retries_witness :
  let boom := Raise ConnectionError in
  let st := Examples.sync_start (Examples.disk_with "p" [])
              [Return Examples.bundle_zip; boom; boom; boom; boom;
               Return Examples.bundle_zip] in
  ∃ st',
    Ercot.for_report_ids Ercot.max_retry "p" [1; 2; 3] st
      = Some ([true; false; true], st') ∧
    Ercot.update_archive "p" (Return (Examples.bundle_listing [1; 2; 3])) st
      = Some (Return (), st') ∧
    Ercot.downloaded st' = [("p", [1]); ("p", [2]); ("p", [2]); ("p", [2]);
                            ("p", [2]); ("p", [3])] ∧
    Ercot.listdir (Ercot.save_dir "p" 3) (Ercot.fs st') = ["a.csv"; "b.csv"] ∧
    Ercot.fs st' !! Ercot.save_dir "p" 2 = None.
Proof.
  intros boom st.
  destruct (proj1 (update_archive_bounded_retries "p"
                     (Examples.bundle_listing [1; 2; 3]) [1; 2; 3] st eq_refl))
    as (dones & counts & st' & Hrun & Hup & _).
  exists st'. split; [|split; [exact Hup|]].
  - rewrite Hrun. f_equal. f_equal.
    assert (Some dones = Some [true; false; true]) as Hd; [|by injection Hd].
    transitivity (fst <$> Ercot.for_report_ids Ercot.max_retry "p" [1; 2; 3] st).
    + by rewrite Hrun.
    + vm_compute. reflexivity.
  - assert (Some st' = snd <$> Ercot.for_report_ids Ercot.max_retry "p" [1; 2; 3] st)
      as Hst by (by rewrite Hrun).
    assert (st' = default st (snd <$> Ercot.for_report_ids Ercot.max_retry "p" [1; 2; 3] st))
      as -> by (by rewrite <- Hst).
    vm_compute. repeat split.
Defined.

(** The directories of 7 and 8 exist: two downloads, two lines, the disk
    as it was. *)
Lemma update_archive_present_items_witness :
  let st := Examples.sync_start (Examples.disk_with "np4-33-cd" [7; 8])
              [Return Examples.bundle_zip; Return Examples.bundle_zip] in
  ∃ st',
    Ercot.update_archive "np4-33-cd" (Return (Examples.bundle_listing [7; 8])) st
      = Some (Return (), st') ∧
    Ercot.downloaded st' = [("np4-33-cd", [7]); ("np4-33-cd", [8])] ∧
    Ercot.printed st' = ["7 already exist"; "8 already exist"] ∧
    Ercot.fs st' = Ercot.fs st.
Proof.
  intros st.
  assert (Forall (λ id, is_Some (Ercot.fs st !! Ercot.save_dir "np4-33-cd" id)) [7; 8])
    as Hdirs by (repeat constructor; eexists; vm_compute; reflexivity).
  eexists. split.
  - exact (proj1 (update_archive_present_items "np4-33-cd"
                    (Examples.bundle_listing [7; 8]) [7; 8] st
                    [Examples.bundle_zip; Examples.bundle_zip] []
                    eq_refl Hdirs eq_refl eq_refl)).
  - split; [vm_compute; reflexivity|]. split; vm_compute; reflexivity.
Defined.

(** * Further properties of the code *)

(** ** The rate limiter: admission *)

Section limiter_admission.
Context {time : Type}.
Variable le_time : time → time → bool.
Variable add_time sub_time : time → time → time.

#[local] Abbreviation popleft_expired := (RateLimiter.popleft_expired le_time).
#[local] Abbreviation locked_check :=
  (RateLimiter.locked_check le_time add_time sub_time).
#[local] Abbreviation wait_loop := (RateLimiter.wait_loop le_time add_time sub_time).
#[local] Abbreviation _wait_for_rate_limit :=
  (RateLimiter._wait_for_rate_limit le_time add_time sub_time).
#[local] Abbreviation outcome_history :=
  (RateLimiter.outcome_history le_time add_time sub_time).

Lemma locked_check_never_empty limit window now ts :
  0 < limit → (locked_check limit window now ts).1 ≠ RateLimiter.EmptyDeque.
Proof.
  intros Hpos. unfold RateLimiter.locked_check.
  case_bool_decide as Hlen; [done|].
  destruct (popleft_expired _ ts); simpl in *; [lia|done].
Qed.

Lemma wait_loop_never_fails limit window clock ts :
  0 < limit → (wait_loop limit window clock ts).1.1 ≠ RateLimiter.Failed.
Proof.
  intros Hpos. revert ts. induction clock as [|now later IH]; intros ts; [done|].
  simpl. pose proof (locked_check_never_empty limit window now ts Hpos) as Hne.
  destruct (locked_check limit window now ts) as [[| |] ts']; simpl in *;
    [done|apply IH|done].
Qed.

(** The read of [self._rate_limit_timestamps[0]] that computes the sleep
    never finds the deque empty: whatever the limit, the window, the clock
    and the deque, [_wait_for_rate_limit] does not fail. *)
Theorem rate_limit_wait_never_raises limit window clock ts :
  (_wait_for_rate_limit limit window clock ts).1.1 ≠ RateLimiter.Failed.
Proof.
  unfold RateLimiter._wait_for_rate_limit.
  destruct limit as [l|]; [|done].
  destruct (RateLimiter.no_limit (Some l)) eqn:Hno; [done|].
  apply wait_loop_never_fails. simpl in Hno.
  apply orb_false_elim in Hno as [_ Hle].
  apply bool_decide_eq_false in Hle. lia.
Qed.

Lemma wait_loop_admits_below_limit limit window now later ts :
  Z.of_nat (length ts) < limit →
  wait_loop limit window (now :: later) ts =
  (RateLimiter.Returned, popleft_expired (sub_time now window) ts ++ [now], later).
Proof.
  intros Hlen. simpl. unfold RateLimiter.locked_check.
  pose proof (popleft_expired_length le_time (sub_time now window) ts).
  rewrite bool_decide_eq_true_2 by lia. done.
Qed.

Lemma outcome_history_fresh limit window calls ts :
  0 < limit →
  Z.of_nat (length ts + length calls) ≤ limit →
  Forall (λ clock, clock ≠ []) calls →
  Forall (λ w, w = RateLimiter.Returned) (outcome_history (Some limit) window calls ts).
Proof.
  intros Hpos. revert ts.
  induction calls as [|clock rest IH]; intros ts Hlen Hne; [constructor|].
  apply Forall_cons in Hne as [Hclock Hne].
  destruct clock as [|now later]; [done|].
  simpl in Hlen. cbn [RateLimiter.outcome_history].
  unfold RateLimiter._wait_for_rate_limit.
  assert (RateLimiter.no_limit (Some limit) = false) as ->.
  { simpl. apply orb_false_intro; apply bool_decide_eq_false; lia. }
  rewrite wait_loop_admits_below_limit by lia. simpl.
  constructor; [done|]. apply IH; [|done].
  pose proof (popleft_expired_length le_time (sub_time now window) ts).
  rewrite length_app. simpl. lia.
Qed.

(** On a fresh client the first [limit] calls are admitted on their first
    clock reading, one after the other, whatever the clock reads. *)
Theorem rate_limit_first_calls_admitted limit window calls :
  0 < limit →
  Z.of_nat (length calls) ≤ limit →
  Forall (λ clock, clock ≠ []) calls →
  Forall (λ w, w = RateLimiter.Returned) (outcome_history (Some limit) window calls []).
Proof. intros Hpos Hlen Hne. by apply outcome_history_fresh. Qed.

(** With the deque full, a pass admits the caller exactly when the oldest
    timestamp is at or before [now - window]: a call beyond the limit is
    admitted only a window after the oldest recorded one. *)
Theorem rate_limit_full_deque_admits_iff limit window now oldest rest :
  Z.of_nat (length (oldest :: rest)) = limit →
  (locked_check limit window now (oldest :: rest)).1 = RateLimiter.Admit ↔
  le_time oldest (sub_time now window) = true.
Proof.
  intros Hfull.
  destruct (locked_check_cases le_time add_time sub_time limit window now (oldest :: rest))
    as [[Hlt Hrun]|(Hge & Hno & _)].
  - rewrite Hrun. simpl. split; [intros _|done].
    simpl in Hlt. destruct (le_time oldest (sub_time now window)); [done|].
    simpl in Hlt, Hfull. lia.
  - split; [done|]. intros Hexp. exfalso.
    simpl in Hge. rewrite Hexp in Hge.
    pose proof (popleft_expired_length le_time (sub_time now window) rest).
    simpl in Hfull. lia.
Qed.

End limiter_admission.

(** Three calls with the limit 3, and the fourth admitted at 160, one
    window after the first. *)
Lemma rate_limit_first_calls_admitted_witness :
  Forall (λ w, w = RateLimiter.Returned)
    (RateLimiter.outcome_history Z.leb Z.add Z.sub (Some 3) 60 [[100]; [100]; [101]] []).
Proof.
  apply (rate_limit_first_calls_admitted Z.leb Z.add Z.sub 3 60 [[100]; [100]; [101]]).
  - lia.
  - simpl. lia.
  - repeat constructor; discriminate.
Defined.

Lemma rate_limit_full_deque_admits_iff_witness :
  (RateLimiter.locked_check Z.leb Z.add Z.sub 2 60 160 [100; 130]).1 = RateLimiter.Admit ∧
  (RateLimiter.locked_check Z.leb Z.add Z.sub 2 60 159 [100; 130]).1 ≠ RateLimiter.Admit.
Proof.
  split.
  - apply (rate_limit_full_deque_admits_iff Z.leb Z.add Z.sub 2 60 160 100 [130]);
      reflexivity.
  - intros Hadmit.
    apply (rate_limit_full_deque_admits_iff Z.leb Z.add Z.sub 2 60 159 100 [130]) in Hadmit;
      [discriminate Hadmit|reflexivity].
Defined.

(** ** [PubApiClient.call]: every outcome *)

Section call_outcomes.
Import PubApi PathSpec.

Lemma request_appends cfg method path params headers json_body data stream s :
  ∃ r, requests (request cfg method path params headers json_body data stream s).2
       = requests s ++ [r] ∧
       responses (request cfg method path params headers json_body data stream s).2
       = tail (responses s) ∧
       req_method r = method ∧
       req_headers r = _headers cfg headers ∧
       req_params r = _query_api_key cfg params.
Proof.
  unfold request, send.
  destruct (responses s) as [|[resp|] later]; simpl;
    [|destruct (raises_for_status _); simpl|]; by eexists.
Qed.

(** Whatever the arguments, [call] either raises before anything is sent,
    leaving the session as it was, or hands the session exactly one request
    and takes one answer: there is no second try, also after an HTTP
    error. *)
Theorem call_sends_at_most_once operations cfg operation_id kwargs s out s' :
  call operations cfg operation_id kwargs s = Some (out, s') →
  (s' = s ∧ ∃ e, out = Raise e) ∨
  (∃ r, requests s' = requests s ++ [r] ∧ responses s' = tail (responses s)).
Proof.
  destruct (operations !! operation_id) as [op|] eqn:Hop.
  - rewrite (call_unfolded _ _ _ _ _ _ Hop). cbn zeta.
    destruct (negb _); [intros [= <- <-]; left; eauto|].
    destruct (negb _); [intros [= <- <-]; left; eauto|].
    destruct (format _ _) as [[filled|e]|]; [|intros [= <- <-]; left; eauto|done].
    intros [= Hrun].
    match type of Hrun with request ?c ?m ?p ?q ?h ?j ?d ?st ?s0 = _ =>
      destruct (request_appends c m p q h j d st s0) as (r & Hreq & Hresp & _) end.
    rewrite Hrun in Hreq, Hresp. right. by exists r.
  - unfold call. rewrite Hop. intros [= <- <-]. left. eauto.
Qed.

Lemma insert_sorted_perm key keys : insert_sorted key keys ≡ₚ key :: keys.
Proof.
  induction keys as [|k keys IH]; simpl; [done|].
  destruct (String.leb key k); [done|]. rewrite IH. apply Permutation_swap.
Qed.

Lemma foldr_insert_sorted_perm keys : foldr insert_sorted [] keys ≡ₚ keys.
Proof.
  induction keys as [|k keys IH]; simpl; [done|].
  by rewrite insert_sorted_perm, IH.
Qed.

#[local] Abbreviation leb_string := (λ a b : string, String.leb a b = true).

Lemma insert_sorted_sorted key keys :
  Sorted leb_string keys → Sorted leb_string (insert_sorted key keys).
Proof.
  induction 1 as [|k keys Hs IH Hhd]; simpl; [by repeat constructor|].
  destruct (String.leb key k) eqn:Hle.
  - constructor; [by constructor|]. by constructor.
  - constructor; [done|].
    assert (leb_string k key) as Hk.
    { destruct (String.leb_total key k) as [H|H]; [congruence|done]. }
    destruct keys as [|k' keys]; simpl; [by constructor|].
    destruct (String.leb key k'); constructor; [done|].
    by inversion Hhd.
Qed.

Lemma foldr_insert_sorted_sorted keys :
  Sorted leb_string (foldr insert_sorted [] keys).
Proof.
  induction keys as [|k keys IH]; simpl; [constructor|].
  by apply insert_sorted_sorted.
Qed.

Lemma sorted_keys_spec (m : gmap string pyval) :
  Sorted leb_string (sorted_keys m) ∧ NoDup (sorted_keys m) ∧
  ∀ n, n ∈ sorted_keys m ↔ is_Some (m !! n).
Proof.
  unfold sorted_keys. split; [apply foldr_insert_sorted_sorted|].
  pose proof (foldr_insert_sorted_perm (map_to_list m).*1) as Hperm.
  split.
  - rewrite Hperm. apply NoDup_fst_map_to_list.
  - intros n. rewrite Hperm, list_elem_of_fmap. split.
    + intros ([k v] & -> & Hin). apply elem_of_map_to_list in Hin. by eexists.
    + intros [v Hv]. exists (n, v). split; [done|]. by apply elem_of_map_to_list.
Qed.

(** When no path parameter is missing and arguments are left that the
    operation does not declare and that are not taken as the body, [call]
    raises the [ValueError] that lists exactly those argument names, each
    once, in ascending order; nothing is sent. *)
Theorem call_lists_every_unexpected_argument
    operations cfg operation_id op kwargs s :
  operations !! operation_id = Some op →
  (∀ n, n ∈ names_in "path" op → is_Some (kwargs !! n)) →
  leftover op kwargs ≠ ∅ →
  ∃ names,
    call operations cfg operation_id kwargs s =
      Some (Raise (ValueError ("Unexpected parameters for " +:+ operation_id +:+
                               ": " +:+ join ", " names)), s) ∧
    Sorted (λ a b, String.leb a b = true) names ∧ NoDup names ∧
    ∀ n, n ∈ names ↔ is_Some (leftover op kwargs !! n).
Proof.
  intros Hop Hpath Hleft. exists (sorted_keys (leftover op kwargs)).
  split; [|apply sorted_keys_spec].
  rewrite (call_unfolded _ _ _ _ _ _ Hop). cbn zeta.
  rewrite bool_decide_eq_true_2.
  - simpl. by rewrite bool_decide_eq_false_2.
  - destruct (filter _ (elements (names_in "path" op))) as [|n l] eqn:Hmiss; [done|].
    exfalso. assert (n ∈ n :: l) as Hin by apply list_elem_of_here.
    rewrite <- Hmiss in Hin. apply list_elem_of_filter in Hin as [Hnone Hn].
    apply elem_of_elements, Hpath in Hn as [v Hv]. congruence.
Qed.

(** The arguments that reach the request: each declared query argument
    that was passed goes into the query parameters and each declared header
    argument into the headers, next to the API key; the method is the
    operation's. *)
Theorem call_forwards_declared_arguments
    operations cfg operation_id op kwargs s out s' r :
  operations !! operation_id = Some op →
  call operations cfg operation_id kwargs s = Some (out, s') →
  r ∈ sent_since s s' →
  req_method r = method op ∧
  req_params r = _query_api_key cfg (Some (query_arguments op kwargs)) ∧
  req_headers r = _headers cfg (Some (header_arguments op kwargs)) ∧
  (∀ n v, query_arguments op kwargs !! n = Some v ↔
          kwargs !! n = Some v ∧ n ∈ names_in "query" op ∧ n ∉ names_in "path" op) ∧
  (∀ n v, header_arguments op kwargs !! n = Some v ↔
          kwargs !! n = Some v ∧ n ∈ names_in "header" op ∧
          (n ∉ names_in "query" op) ∧ (n ∉ names_in "path" op)).
Proof.
  intros Hop Hcall Hr.
  assert (∀ e, out = Raise e → s' = s → False) as Hsent.
  { intros e _ ->. rewrite sent_since_refl in Hr. by apply elem_of_nil in Hr. }
  rewrite (call_unfolded _ _ _ _ _ _ Hop) in Hcall. cbn zeta in Hcall.
  destruct (negb _); [injection Hcall as <- <-; exfalso; eauto|].
  destruct (negb _); [injection Hcall as <- <-; exfalso; eauto|].
  destruct (format _ _) as [[filled|e]|];
    [|injection Hcall as <- <-; exfalso; eauto|done].
  injection Hcall as Hrun.
  match type of Hrun with request ?c ?m ?p ?q ?h ?j ?d ?st ?s0 = _ =>
    destruct (request_appends c m p q h j d st s0) as (r' & Hreq & _ & Hm & Hh & Hp) end.
  rewrite Hrun in Hreq. simpl in Hreq.
  unfold sent_since in Hr. rewrite Hreq, drop_app_length in Hr.
  apply list_elem_of_singleton in Hr as ->.
  split; [done|]. split; [done|]. split.
  { rewrite Hh. case_bool_decide as Hempty; [|done].
    unfold _headers. simpl. by rewrite Hempty. }
  unfold query_arguments, header_arguments, pop_all. simpl. split.
  - intros n v. rewrite !map_lookup_filter_Some. simpl. tauto.
  - intros n v. rewrite !map_lookup_filter_Some. simpl. tauto.
Qed.

Lemma render_is_Some values pieces : is_Some (render values pieces).
Proof.
  induction pieces as [|p pieces [k Hk]]; simpl; [by eexists|].
  rewrite Hk. destruct p as [text|name]; simpl.
  - destruct k as [tail|e]; by eexists.
  - destruct (get_field name values); [|by eexists].
    destruct k as [tail|e]; by eexists.
Qed.

(** A placeholder of the path template that the operation does not declare
    as a path parameter can never be filled: whatever the arguments, [call]
    raises and sends nothing. *)
Theorem call_undeclared_placeholder operations cfg operation_id op kwargs s pieces name :
  operations !! operation_id = Some op →
  path op = template_text pieces →
  Forall (λ p, well_formed p = true) pieces →
  Field name ∈ pieces →
  name ∉ names_in "path" op →
  ∃ e, call operations cfg operation_id kwargs s = Some (Raise e, s).
Proof.
  intros Hop Hpath Hwf Hin Hundeclared.
  rewrite (call_unfolded _ _ _ _ _ _ Hop). cbn zeta.
  destruct (negb _); [by eexists|].
  destruct (negb _); [by eexists|].
  rewrite Hpath, format_template by done.
  destruct (render_is_Some (pop_all (names_in "path" op) kwargs).1 pieces) as [k Hk].
  rewrite Hk. destruct k as [filled|e]; [|by eexists].
  exfalso. apply render_Return in Hk as [_ Hbound]; [|done].
  destruct (Hbound name Hin) as [v Hv].
  unfold pop_all in Hv. simpl in Hv.
  by apply map_lookup_filter_Some in Hv as [_ Hv].
Qed.

(** Doubling the braces of a text makes [str.format] give the text back,
    whatever the arguments. *)
Lemma format_escaped_text text values :
  format (escape_braces text) values = Some (Return text).
Proof.
  unfold format. induction text as [|c text IH]; [done|].
  cbn [escape_braces]. unfold brace.
  destruct (Ascii.eqb_spec c "{") as [->|Hopen].
  { cbn [orb]. cbn [format_from Ascii.eqb]. simpl. by rewrite IH. }
  destruct (Ascii.eqb_spec c "}") as [->|Hclose].
  { simpl. by rewrite IH. }
  simpl. apply Ascii.eqb_neq in Hopen, Hclose. rewrite Hopen, Hclose.
  by rewrite IH.
Qed.

End call_outcomes.

(** ** URLs, the operation index *)

Section urls_and_index.
Import PubApi PathSpec.

#[local] Abbreviation is_slash := (λ c : ascii, Ascii.eqb c "/").

Lemma rstrip_slash_split s :
  ∃ trail, s = rstrip_slash s +:+ trail ∧ all_chars is_slash trail = true.
Proof.
  induction s as [|c s (trail & Hs & Htrail)]; [by exists ""|].
  cbn [rstrip_slash]. destruct (rstrip_slash s) as [|k kept] eqn:Hkept.
  - simpl in Hs. subst s. destruct (Ascii.eqb c "/") eqn:Hc.
    + exists (String c trail). split; [done|]. simpl. by rewrite Hc.
    + by exists trail.
  - exists trail. split; [|done].
    change (String c s = String c (String k kept +:+ trail)). by rewrite Hs at 1.
Qed.

Lemma rstrip_slash_no_trailing s x : rstrip_slash s ≠ x +:+ "/".
Proof.
  revert x. induction s as [|c s IH]; intros x.
  - by destruct x.
  - cbn [rstrip_slash]. destruct (rstrip_slash s) as [|k kept] eqn:Hkept.
    + destruct (Ascii.eqb_spec c "/") as [->|Hc]; [by destruct x|].
      destruct x as [|c' x]; [by intros [= ->]|].
      intros [= _ Hx]. by destruct x.
    + destruct x as [|c' x]; [by intros [= _ ?]|].
      intros [= _ Hx]. by apply (IH x).
Qed.

Lemma lstrip_slash_split s :
  ∃ lead, s = lead +:+ lstrip_slash s ∧ all_chars is_slash lead = true.
Proof.
  induction s as [|c s (lead & Hs & Hlead)]; [by exists ""|].
  destruct (Ascii.eqb_spec c "/") as [->|Hc].
  - exists (String "/" lead). split; [|done].
    change (String "/" s = String "/" (lead +:+ lstrip_slash s)). by rewrite <- Hs.
  - exists "". split; [|done].
    destruct c as [[] [] [] [] [] [] [] []]; try reflexivity. done.
Qed.

Lemma lstrip_slash_no_leading s x : lstrip_slash s ≠ "/" +:+ x.
Proof.
  induction s as [|c s IH]; [done|].
  destruct (Ascii.eqb_spec c "/") as [->|Hc]; [exact IH|].
  assert (lstrip_slash (String c s) = String c s) as ->.
  { destruct c as [[] [] [] [] [] [] [] []]; try reflexivity. done. }
  by intros [= -> _].
Qed.

(** The URL of a request is the base URL without its trailing slashes, one
    slash, and the path without its leading slashes: exactly one slash at
    the joint, however many either side brings. *)
Theorem request_url_has_one_joining_slash
    cfg method path params headers json_body data stream s :
  ∃ r base trail lead rest,
    sent_since s (request cfg method path params headers json_body data stream s).2 = [r] ∧
    base_url cfg = base +:+ trail ∧ all_chars (λ c, Ascii.eqb c "/") trail = true ∧
    path = lead +:+ rest ∧ all_chars (λ c, Ascii.eqb c "/") lead = true ∧
    (∀ x, base ≠ x +:+ "/") ∧ (∀ x, rest ≠ "/" +:+ x) ∧
    req_url r = base +:+ "/" +:+ rest.
Proof.
  destruct (pubapi_request_sends cfg method path params headers json_body data stream s)
    as (r & Hsent & _ & _ & _ & _ & Hurl).
  destruct (rstrip_slash_split (base_url cfg)) as (trail & Hbase & Htrail).
  destruct (lstrip_slash_split path) as (lead & Hpath & Hlead).
  exists r, (rstrip_slash (base_url cfg)), trail, lead, (lstrip_slash path).
  repeat split; try done.
  - apply rstrip_slash_no_trailing.
  - apply lstrip_slash_no_leading.
Qed.

(** An entry that [_index_operations] records: the key is no [x-]
    extension and the value is an operation object with a non-empty
    [operationId]. *)
#[local] Abbreviation records path methods id op :=
  (∃ method params has_body,
     (method, OperationObject (Some id) params has_body) ∈ methods ∧
     String.prefix "x-" method = false ∧ id ≠ "" ∧
     op = {| method := upper method; path := path;
             parameters := default [] params; requestBody := has_body |}).

Lemma index_methods_Some path methods acc ops :
  index_methods path methods acc = Some ops →
  (∀ id op, ops !! id = Some op →
            acc !! id = Some op ∨ records path methods id op) ∧
  (∀ id, is_Some (acc !! id) ∨ (∃ op, records path methods id op) →
         is_Some (ops !! id)).
Proof.
  revert acc. induction methods as [|[method v] methods IH]; intros acc Hrun.
  - injection Hrun as <-. split; [by left|].
    intros id [?|(op & m & p & b & Hin & _)]; [done|by apply elem_of_nil in Hin].
  - cbn [index_methods] in Hrun.
    assert (∀ acc',
      index_methods path methods acc' = Some ops →
      (∀ id op, acc' !! id = Some op →
                acc !! id = Some op ∨ records path ((method, v) :: methods) id op) →
      (∀ id, is_Some (acc !! id) → is_Some (acc' !! id)) →
      (∀ id op, records path [(method, v)] id op → is_Some (acc' !! id)) →
      (∀ id op, ops !! id = Some op →
                acc !! id = Some op ∨ records path ((method, v) :: methods) id op) ∧
      (∀ id, is_Some (acc !! id) ∨ (∃ op, records path ((method, v) :: methods) id op) →
             is_Some (ops !! id))) as Hstep.
    { intros acc' Hrun' Hsound Hkeep Hnew. destruct (IH _ Hrun') as [Hs Hc]. split.
      - intros id op Hop. destruct (Hs id op Hop) as [Hacc|(m & p & b & Hin & Hrest)].
        + by apply Hsound.
        + right. exists m, p, b. split; [by apply list_elem_of_further|done].
      - intros id [Hacc|(op & m & p & b & Hin & Hx & Hid & Hop)].
        + apply Hc. left. by apply Hkeep.
        + apply elem_of_cons in Hin as [[= -> <-]|Hin].
          * apply Hc. left. apply (Hnew id op). exists method, p, b.
            split; [apply list_elem_of_here|done].
          * apply Hc. right. exists op, m, p, b. done. }
    destruct (String.prefix "x-" method) eqn:Hx.
    { apply (Hstep acc Hrun); [by left|done|].
      intros id op (m & p & b & Hin & Hx' & _).
      apply list_elem_of_singleton in Hin as [= -> _]. congruence. }
    destruct v as [|oid params has_body]; [done|].
    destruct (truthy oid) eqn:Hoid; simpl in Hrun.
    + destruct oid as [id0|]; [|done]. simpl in Hrun.
      apply (Hstep _ Hrun).
      * intros id op Hop. destruct (decide (id0 = id)) as [->|Hne].
        -- rewrite lookup_insert_eq in Hop. injection Hop as <-. right.
           exists method, params, has_body.
           split; [apply list_elem_of_here|]. split; [done|].
           split; [by apply truthy_Some|done].
        -- rewrite lookup_insert_ne in Hop by done. by left.
      * intros id Hacc. destruct (decide (id0 = id)) as [->|Hne];
          [by rewrite lookup_insert_eq|by rewrite lookup_insert_ne].
      * intros id op (m & p & b & Hin & _).
        apply list_elem_of_singleton in Hin as [= -> -> _ _].
        by rewrite lookup_insert_eq.
    + apply (Hstep acc Hrun); [by left|done|].
      intros id op (m & p & b & Hin & _ & Hid & _).
      apply list_elem_of_singleton in Hin as [= _ <- _ _].
      apply truthy_Some in Hid. congruence.
Qed.

Lemma index_methods_None path methods acc :
  index_methods path methods acc = None ↔
  ∃ method, (method, NotAnObject) ∈ methods ∧ String.prefix "x-" method = false.
Proof.
  revert acc. induction methods as [|[method v] methods IH]; intros acc.
  - split; [done|]. intros (m & Hin & _). by apply elem_of_nil in Hin.
  - cbn [index_methods].
    assert (∀ acc', v ≠ NotAnObject ∨ String.prefix "x-" method = true →
      index_methods path methods acc' = None ↔
      ∃ m, (m, NotAnObject) ∈ (method, v) :: methods ∧ String.prefix "x-" m = false)
      as Hskip.
    { intros acc' Hv. rewrite IH. split.
      - intros (m & Hin & Hx). exists m. split; [by apply list_elem_of_further|done].
      - intros (m & Hin & Hx). apply elem_of_cons in Hin as [[= -> <-]|Hin].
        + destruct Hv; [done|congruence].
        + by exists m. }
    destruct (String.prefix "x-" method) eqn:Hx; [apply Hskip; by right|].
    destruct v as [|oid params has_body].
    + split; [intros _|done]. exists method. split; [apply list_elem_of_here|done].
    + destruct (negb (truthy oid)); apply Hskip; by left.
Qed.

(** The index holds exactly the operations the document gives an id: an
    operation is indexed under [id] only if some path item has, under a key
    that is no [x-] extension, an operation object with that non-empty
    [operationId], and then it carries that path, the key in upper case,
    the object's parameters (none when absent) and its request-body flag;
    every such id is in the index. *)
Theorem index_operations_holds_the_identified paths operations :
  _index_operations paths = Some operations →
  (∀ id op, operations !! id = Some op →
     ∃ path methods, (path, methods) ∈ paths ∧ records path methods id op) ∧
  (∀ path methods id op,
     (path, methods) ∈ paths → records path methods id op →
     is_Some (operations !! id)).
Proof.
  unfold _index_operations.
  assert (∀ acc,
    index_paths paths acc = Some operations →
    (∀ id op, operations !! id = Some op →
       acc !! id = Some op ∨
       ∃ path methods, (path, methods) ∈ paths ∧ records path methods id op) ∧
    (∀ id, is_Some (acc !! id) ∨
           (∃ path methods op, (path, methods) ∈ paths ∧ records path methods id op) →
           is_Some (operations !! id))) as Hgen.
  { induction paths as [|[path methods] paths IH]; intros acc Hrun.
    - injection Hrun as <-. split; [by left|].
      intros id [?|(p & m & op & Hin & _)]; [done|by apply elem_of_nil in Hin].
    - cbn [index_paths] in Hrun.
      destruct (index_methods path methods acc) as [acc'|] eqn:Hm; [|done].
      destruct (index_methods_Some _ _ _ _ Hm) as [Hs Hc].
      destruct (IH _ Hrun) as [Hs' Hc']. split.
      + intros id op Hop. destruct (Hs' id op Hop) as [Hacc|(p & m & Hin & Hrec)].
        * destruct (Hs id op Hacc) as [?|Hrec]; [by left|].
          right. exists path, methods. split; [apply list_elem_of_here|done].
        * right. exists p, m. split; [by apply list_elem_of_further|done].
      + intros id [Hacc|(p & m & op & Hin & Hrec)].
        * apply Hc'. left. apply Hc. by left.
        * apply elem_of_cons in Hin as [[= -> ->]|Hin].
          -- apply Hc'. left. apply Hc. right. by exists op.
          -- apply Hc'. right. by exists p, m, op. }
  intros Hrun. destruct (Hgen ∅ Hrun) as [Hs Hc]. split.
  - intros id op Hop. destruct (Hs id op Hop) as [Hempty|?]; [|done].
    by rewrite lookup_empty in Hempty.
  - intros path methods id op Hin Hrec. apply Hc. right. by exists path, methods, op.
Qed.

(** Building the index fails, with the [AttributeError] of [op.get], exactly
    when some path item has, under a key that is no [x-] extension, a value
    that is no object (a path-level [parameters] list or [summary] text,
    say). *)
Theorem index_operations_fails_on_non_object paths :
  _index_operations paths = None ↔
  ∃ path methods method,
    (path, methods) ∈ paths ∧ (method, NotAnObject) ∈ methods ∧
    String.prefix "x-" method = false.
Proof.
  unfold _index_operations. generalize (∅ : gmap string operation).
  induction paths as [|[path methods] paths IH]; intros acc.
  - split; [done|]. intros (p & m & k & Hin & _). by apply elem_of_nil in Hin.
  - cbn [index_paths].
    destruct (index_methods path methods acc) as [acc'|] eqn:Hm.
    + rewrite IH. split.
      * intros (p & m & k & Hin & Hrest). exists p, m, k.
        split; [by apply list_elem_of_further|done].
      * intros (p & m & k & Hin & Hk & Hx).
        apply elem_of_cons in Hin as [[= -> ->]|Hin]; [|by exists p, m, k].
        assert (index_methods path methods acc = None) as Hnone
          by (apply index_methods_None; by exists k).
        congruence.
    + split; [intros _|done]. apply index_methods_None in Hm as (k & Hk & Hx).
      exists path, methods, k. split; [apply list_elem_of_here|done].
Qed.

(** [list_operations] gives every operation id once, in ascending order. *)
Theorem list_operations_sorted_ids operations :
  Sorted (λ a b, String.leb a b = true) (list_operations operations) ∧
  NoDup (list_operations operations) ∧
  ∀ id, id ∈ list_operations operations ↔ is_Some (operations !! id).
Proof.
  unfold list_operations. split; [apply foldr_insert_sorted_sorted|].
  pose proof (foldr_insert_sorted_perm (map_to_list operations).*1) as Hperm.
  split.
  - rewrite Hperm. apply NoDup_fst_map_to_list.
  - intros n. rewrite Hperm, list_elem_of_fmap. split.
    + intros ([k v] & -> & Hin). apply elem_of_map_to_list in Hin. by eexists.
    + intros [v Hv]. exists (n, v). split; [done|]. by apply elem_of_map_to_list.
Qed.

End urls_and_index.

(** ** [ErcotPublicDataClient]: the token request, injected tokens, failing pages *)

Section ercot_more.
Import Ercot PagesSpec.

#[local] Abbreviation query_safe :=
  (λ c : ascii, always_safe c || Ascii.eqb c "+" || Ascii.eqb c "%").

Lemma all_chars_append ok a b :
  PathSpec.all_chars ok (a +:+ b) = PathSpec.all_chars ok a && PathSpec.all_chars ok b.
Proof.
  induction a as [|c a IH]; [done|].
  change (ok c && PathSpec.all_chars ok (a +:+ b) =
          ok c && PathSpec.all_chars ok a && PathSpec.all_chars ok b).
  rewrite IH. by destruct (ok c).
Qed.

Lemma quote_plus_cons c rest :
  quote_plus (String c rest) = quote_plus (String c "") +:+ quote_plus rest.
Proof.
  cbn [quote_plus]. destruct (always_safe c); [done|].
  by destruct (Ascii.eqb c " ").
Qed.

Lemma quote_plus_char_safe c :
  PathSpec.all_chars query_safe (quote_plus (String c "")) = true.
Proof. destruct c as [[] [] [] [] [] [] [] []]; vm_compute; reflexivity. Qed.

(** What [quote_plus] writes consists of letters, digits and [_.-~+%]
    only. *)
Lemma quote_plus_writes_safe_characters s :
  PathSpec.all_chars (λ c, always_safe c || Ascii.eqb c "+" || Ascii.eqb c "%")
    (quote_plus s) = true.
Proof.
  induction s as [|c s IH]; [done|].
  rewrite quote_plus_cons, all_chars_append, IH. by rewrite quote_plus_char_safe.
Qed.

(** Text that is safe already is left as it is. *)
Lemma quote_plus_keeps_safe_text s :
  PathSpec.all_chars always_safe s = true → quote_plus s = s.
Proof.
  induction s as [|c s IH]; [done|]. cbn [PathSpec.all_chars quote_plus].
  intros [Hc Hs]%andb_prop. rewrite Hc. by rewrite IH.
Qed.

(** [authenticate] hands the session exactly one request, whatever comes
    of it: a POST to the token URL with the form fields, in order, in its
    query string and [Content-Type] as its only header (no API key, no
    stored token); it neither waits for the rate limiter nor records a
    timestamp. *)
Theorem authenticate_sends_one_unlimited_post username password c :
  let c' := (authenticate username password c).2 in
  (∃ r, sent_since c c' = [r] ∧
        req_method r = "POST" ∧
        req_url r = token_url (config c) +:+ "?" +:+
                    join "&" ["username=" +:+ quote_plus username;
                              "password=" +:+ quote_plus password;
                              "grant_type=password";
                              "scope=" +:+ quote_plus (scope (config c));
                              "client_id=" +:+ quote_plus (client_id (config c));
                              "response_type=id_token"] ∧
        req_headers r = {["Content-Type" := "application/x-www-form-urlencoded"]} ∧
        req_params r = ∅ ∧ req_json r = None) ∧
  _rate_limit_timestamps c' = _rate_limit_timestamps c ∧
  monotonic c' = monotonic c.
Proof.
  unfold authenticate, send, sent_since.
  destruct (responses (_session c)) as [|[resp|] later]; simpl.
  - split; [|done]. eexists. rewrite drop_app_length. repeat split.
  - destruct (raises_for_status (status_code resp)); simpl;
      [split; [|done]; eexists; rewrite drop_app_length; repeat split|].
    destruct (json resp) as [data|]; simpl;
      [|split; [|done]; eexists; rewrite drop_app_length; repeat split].
    destruct (negb (truthy (id_token data))); simpl;
      (split; [|done]); eexists; rewrite drop_app_length; repeat split.
  - split; [|done]. eexists. rewrite drop_app_length. repeat split.
Qed.

(** After [set_id_token(t)] every request of any later series of calls
    carries [Authorization: Bearer t]; with the empty string for [t] the
    client sends no [Authorization] header at all. *)
Theorem set_id_token_decides_the_header token c calls :
  let c' := set_id_token token c in
  Forall (λ r, req_headers r !! "Authorization" =
               if String.eqb token "" then None else Some ("Bearer " +:+ token))
         (sent_since c' (run_requests calls c')).
Proof.
  intros c'.
  destruct (run_requests_effect calls c') as (_ & _ & new & Hnew & Hall).
  rewrite (sent_since_app _ _ _ Hnew).
  eapply Forall_impl; [exact Hall|]. simpl. intros r ->.
  unfold _headers, c', set_id_token. simpl.
  destruct (String.eqb token ""); simpl.
  - destruct (truthy _ && negb _); [by rewrite lookup_insert_ne|done].
  - by rewrite lookup_insert_eq.
Qed.

Lemma pages_from_error path params page_size max_pages (k : nat) payloads e later :
  (length payloads <
   match max_pages with
   | Some m => Nat.min (Z.to_nat (Z.max 1 (m - Z.of_nat k))) (natural_end payloads)
   | None => natural_end payloads
   end)%nat →
  let run := pages_from path params page_size max_pages
               {| page := Z.of_nat k; fetched := Z.of_nat k |}
               ((Return <$> payloads) ++ Raise e :: later) in
  yielded run = payloads ∧
  asked run = page_request path params page_size <$> seq k (S (length payloads)) ∧
  ending run = Raise e.
Proof.
  revert k. induction payloads as [|d rest IH]; intros k Hn; [done|].
  cbn [fmap list_fmap app pages_from]. rewrite resume_last_page. cbn [fetched page].
  cbn [natural_end length] in Hn.
  destruct (last_page d) eqn:Hl; [destruct max_pages; lia|].
  assert (match max_pages with
          | Some m => bool_decide (m ≤ Z.of_nat k + 1)
          | None => false
          end = false) as ->.
  { destruct max_pages as [m|]; [|done]. apply bool_decide_eq_false. lia. }
  replace (Z.of_nat k + 1) with (Z.of_nat (S k)) by lia.
  destruct (IH (S k)) as (Hy & Ha & He); [destruct max_pages; lia|].
  cbn [yielded asked ending].
  split; [f_equal; exact Hy|]. split; [|exact He].
  cbn [seq fmap list_fmap]. f_equal. exact Ha.
Qed.

(** When a page request fails before the pages are through, the generator
    has yielded the payloads received so far, has made one request per
    payload and the failed one, and ends with that error. *)
Theorem iter_report_pages_ends_with_the_error
    path params page_size max_pages payloads e later :
  (length payloads < pages_yielded max_pages payloads)%nat →
  let run := iter_report_pages path params page_size max_pages
               ((Return <$> payloads) ++ Raise e :: later) in
  yielded run = payloads ∧
  asked run = page_request path params page_size <$> seq 0 (S (length payloads)) ∧
  ending run = Raise e.
Proof.
  intros Hn. apply (pages_from_error path params page_size max_pages 0).
  unfold pages_yielded in Hn. destruct max_pages as [m|]; [|done].
  by replace (m - Z.of_nat 0) with m by lia.
Qed.

End ercot_more.

(** ** [update_archive]: what is left on the disk *)

Section archive_disk.
Import Ercot.

Lemma remove_each_fs dir names st :
  fs (remove_each dir names st) =
  foldl (λ d n, alter (delete n) dir d) (fs st) names.
Proof.
  unfold remove_each. revert st. induction names as [|n names IH]; intros st; [done|].
  cbn [foldl]. by rewrite IH.
Qed.

Lemma foldl_alter_other {A} (f : string → gmap string A → gmap string A) dir other
    (names : list string) (d : gmap string (gmap string A)) :
  other ≠ dir →
  foldl (λ d n, alter (f n) dir d) d names !! other = d !! other.
Proof.
  intros Hne. revert d. induction names as [|n names IH]; intros d; [done|].
  cbn [foldl]. rewrite IH. by rewrite lookup_alter_ne.
Qed.

Lemma foldl_alter_delete dir names (d : gmap string (gmap string blob)) :
  foldl (λ d n, alter (delete n) dir d) d names !! dir =
  (λ entries, foldl (λ e n, delete n e) entries names) <$> (d !! dir).
Proof.
  revert d. induction names as [|n names IH]; intros d.
  - cbn [foldl]. by destruct (d !! dir).
  - cbn [foldl]. rewrite IH, lookup_alter_eq. by destruct (d !! dir).
Qed.

Lemma foldl_delete_lookup (names : list string) (entries : gmap string blob) k :
  foldl (λ e n, delete n e) entries names !! k =
  if decide (k ∈ names) then None else entries !! k.
Proof.
  revert entries. induction names as [|n names IH]; intros entries.
  - cbn [foldl]. by rewrite decide_False by apply not_elem_of_nil.
  - cbn [foldl]. rewrite IH.
    destruct (decide (k ∈ names)) as [Hin|Hnin].
    + by rewrite decide_True by (by apply list_elem_of_further).
    + destruct (decide (k = n)) as [->|Hne].
      * rewrite decide_True by apply list_elem_of_here. apply lookup_delete_eq.
      * rewrite decide_False by (intros [?|?]%elem_of_cons; done).
        by apply lookup_delete_ne.
Qed.

Lemma elem_of_listdir dir (d : gmap string (gmap string blob)) n :
  n ∈ listdir dir d ↔ is_Some (default ∅ (d !! dir) !! n).
Proof.
  unfold listdir. rewrite list_elem_of_fmap. split.
  - intros ([k v] & -> & Hin). apply elem_of_map_to_list in Hin. by eexists.
  - intros [v Hv]. exists (n, v). split; [done|]. by apply elem_of_map_to_list.
Qed.

(** For a plain product id and a download with plain member names, an
    attempt that goes through for a directory that was not there leaves no
    entry in it that [*.zip] matches. *)
Theorem try_body_leaves_no_zip product_id report_id zip later st st' :
  plain_product_id product_id = true →
  replies st = Return zip :: later →
  plain_bundle zip = true →
  try_body product_id report_id st = (Return (), st') →
  fs st !! save_dir product_id report_id = None →
  Forall (λ n, matches_zip n = false)
         (listdir (save_dir product_id report_id) (fs st')).
Proof.
  intros _ Hreply _ Hrun Hnew. unfold try_body, download_bundle in Hrun.
  rewrite Hreply in Hrun. simpl in Hrun.
  assert (exists_ (save_dir product_id report_id) (fs st) = false) as Hexists.
  { unfold exists_. apply bool_decide_eq_false_2. rewrite Hnew. by intros [? ?]. }
  rewrite Hexists in Hrun. simpl in Hrun. destruct (mkdir _ _) as [d|e]; simpl in Hrun; [|done].
  destruct zip as [data|members]; simpl in Hrun; [done|].
  destruct (extract_each _ _ _) as [[[]|e] d'] eqn:Hext; simpl in Hrun; [|done].
  injection Hrun as <-.
  apply Forall_forall. intros n Hn.
  apply elem_of_listdir in Hn as [v Hv].
  rewrite remove_each_fs in Hv. simpl in Hv.
  rewrite foldl_alter_delete in Hv.
  destruct (d' !! save_dir product_id report_id) as [entries|] eqn:Hdir;
    simpl in Hv; [|by rewrite lookup_empty in Hv].
  rewrite foldl_delete_lookup in Hv.
  destruct (decide (n ∈ glob_zip _ _)) as [|Hnot]; [done|].
  destruct (matches_zip n) eqn:Hzip; [|done].
  exfalso. apply Hnot. unfold glob_zip. apply list_elem_of_filter.
  split; [done|]. apply elem_of_listdir. rewrite Hdir. by eexists.
Qed.

Lemma extractall_other members dir other (d : gmap string (gmap string blob)) :
  other ≠ dir → extractall members dir d !! other = d !! other.
Proof.
  intros Hne. unfold extractall. revert d.
  induction members as [|m members IH]; intros d; [done|].
  cbn [foldl]. rewrite IH. by rewrite lookup_alter_ne.
Qed.

Lemma extract_each_other dir files other (d : gmap string (gmap string blob)) :
  other ≠ dir → (extract_each dir files d).2 !! other = d !! other.
Proof.
  intros Hne. revert d. induction files as [|f files IH]; intros d; [done|].
  cbn [extract_each]. destruct (open_zip dir f d) as [members|e]; [|done].
  rewrite IH. by apply extractall_other.
Qed.

Lemma try_body_other product_id report_id st other :
  other ≠ save_dir product_id report_id →
  fs (try_body product_id report_id st).2 !! other = fs st !! other.
Proof.
  intros Hne. unfold try_body, download_bundle.
  destruct (replies st) as [|[zip|e] later]; simpl; try done.
  destruct (exists_ _ _); simpl; [done|].
  unfold mkdir. destruct (exists_ _ _); simpl; [done|].
  destruct (exists_ _ _); simpl; [|done].
  destruct zip as [data|members]; simpl; [by rewrite lookup_insert_ne|].
  pose proof (extract_each_other (save_dir product_id report_id)
    (listdir (save_dir product_id report_id)
       (extractall members (save_dir product_id report_id)
          (<[save_dir product_id report_id:=∅]> (fs st))))
    other (extractall members (save_dir product_id report_id)
          (<[save_dir product_id report_id:=∅]> (fs st))) Hne) as Hother.
  destruct (extract_each _ _ _) as [[[]|e] d']; simpl in *.
  - rewrite remove_each_fs. simpl. rewrite foldl_alter_other by done.
    rewrite Hother, extractall_other by done. by rewrite lookup_insert_ne.
  - rewrite Hother, extractall_other by done. by rewrite lookup_insert_ne.
Qed.

Lemma while_not_done_other fuel max_retry retry product_id report_id st fin st' other :
  while_not_done fuel max_retry retry product_id report_id st = Some (fin, st') →
  other ≠ save_dir product_id report_id →
  fs st' !! other = fs st !! other.
Proof.
  intros Hrun Hne. revert retry st Hrun.
  induction fuel as [|fuel IH]; intros retry st Hrun; [done|].
  cbn [while_not_done] in Hrun.
  pose proof (try_body_other product_id report_id st other Hne) as Hstep.
  destruct (try_body product_id report_id st) as [[[]|e] st1]; simpl in Hstep.
  - injection Hrun as _ <-. done.
  - case_bool_decide.
    + apply IH in Hrun. by rewrite Hrun.
    + injection Hrun as _ <-. done.
Qed.

(** For a plain product id and downloads with plain member names,
    [update_archive] creates no directory and changes no files but those of
    the destination directories of the listed document ids: every other
    directory is there or not as before, with the files it had. *)
Theorem update_archive_touches_only_destinations product_id report ids st out st' other :
  plain_product_id product_id = true →
  (∀ zip, Return zip ∈ replies st → plain_bundle zip = true) →
  bundles report = Some ids →
  update_archive product_id (Return report) st = Some (out, st') →
  (∀ id, id ∈ ids → other ≠ save_dir product_id id) →
  fs st' !! other = fs st !! other.
Proof.
  intros _ _ Hids Hrun Hother. unfold update_archive in Hrun. rewrite Hids in Hrun.
  destruct (for_report_ids max_retry product_id ids st) as [[dones st1]|] eqn:Hfor;
    [|done].
  injection Hrun as _ <-. clear Hids.
  revert st dones Hfor. induction ids as [|id ids IH]; intros st dones Hfor.
  - by injection Hfor as _ <-.
  - cbn [for_report_ids] in Hfor.
    destruct (while_not_done _ _ _ _ _ _) as [[fin st2]|] eqn:Hwhile; [|done].
    destruct (for_report_ids max_retry product_id ids st2) as [[dones' st3]|] eqn:Hrest;
      [|done].
    injection Hfor as _ <-.
    rewrite (IH (λ id' Hin, Hother id' (list_elem_of_further _ _ _ Hin)) _ _ Hrest).
    eapply while_not_done_other; [exact Hwhile|]. apply Hother, list_elem_of_here.
Qed.

(** A download that is no ZIP archive marks the item done: the first
    attempt creates the directory and fails on the bytes, the retry finds
    the directory, prints [already exist] and ends the loop, with the
    directory empty. *)
Theorem bad_download_marks_item_done product_id report_id st data zip later :
  fs st !! save_dir product_id report_id = None →
  is_Some (fs st !! dirname (save_dir product_id report_id)) →
  replies st = Return (Raw data) :: Return zip :: later →
  while_not_done (S (Z.to_nat max_retry)) max_retry 0 product_id report_id st =
  Some (true,
        {| fs := <[save_dir product_id report_id := ∅]> (fs st);
           replies := later;
           downloaded := downloaded st ++ [(product_id, [report_id]);
                                           (product_id, [report_id])];
           printed := printed st ++ ["retrying";
                                     pretty report_id +:+ " already exist"] |}).
Proof.
  intros Hnew Hparent Hr.
  change (Z.to_nat max_retry) with 3%nat. unfold max_retry.
  cbn [while_not_done].
  assert (try_body product_id report_id st =
          (Raise BadZipFile,
           {| fs := <[save_dir product_id report_id := ∅]> (fs st);
              replies := Return zip :: later;
              downloaded := downloaded st ++ [(product_id, [report_id])];
              printed := printed st |})) as ->.
  { unfold try_body, download_bundle. rewrite Hr. simpl.
    assert (exists_ (save_dir product_id report_id) (fs st) = false) as Hexists.
    { unfold exists_. apply bool_decide_eq_false_2. rewrite Hnew. by intros [? ?]. }
    assert (exists_ (dirname (save_dir product_id report_id)) (fs st) = true) as Hpar.
    { unfold exists_. by apply bool_decide_eq_true_2. }
    unfold mkdir. rewrite !Hexists. simpl. by rewrite Hpar. }
  rewrite bool_decide_eq_true_2 by lia.
  erewrite try_body_already_exists;
    [|reflexivity|simpl; rewrite lookup_insert_eq; by eexists].
  simpl. by rewrite <- !app_assoc.
Qed.

End archive_disk.

(** ** [update_archive]: a two-level bundle, extracted *)

Section archive_round_trip.
Import Ercot.

Lemma NoDup_fmap_same {A B} (f : A → B) (l : list A) a b :
  NoDup (f <$> l) → a ∈ l → b ∈ l → f a = f b → a = b.
Proof.
  induction l as [|x l IH]; intros Hnd Ha Hb Hf; [by apply elem_of_nil in Ha|].
  rewrite fmap_cons in Hnd. apply NoDup_cons in Hnd as [Hx Hnd].
  apply elem_of_cons in Ha as [->|Ha]; apply elem_of_cons in Hb as [->|Hb].
  - done.
  - exfalso. apply Hx. rewrite Hf. by apply list_elem_of_fmap_2.
  - exfalso. apply Hx. rewrite <- Hf. by apply list_elem_of_fmap_2.
  - by apply IH.
Qed.

Lemma extractall_dir members dir (d : gmap string (gmap string blob)) :
  extractall members dir d !! dir =
  (λ e, foldl (λ e m, <[m.1 := m.2]> e) e members) <$> (d !! dir).
Proof.
  unfold extractall. revert d. induction members as [|m members IH]; intros d.
  - cbn [foldl]. by destruct (d !! dir).
  - cbn [foldl]. rewrite IH, lookup_alter_eq. by destruct (d !! dir).
Qed.

Lemma foldl_insert_absent (members : list (string * blob)) (e : gmap string blob) k :
  k ∉ members.*1 →
  foldl (λ e m, <[m.1 := m.2]> e) e members !! k = e !! k.
Proof.
  revert e. induction members as [|m members IH]; intros e Hk; [done|].
  cbn [foldl]. rewrite fmap_cons in Hk. apply not_elem_of_cons in Hk as [Hne Hk].
  rewrite IH by done. by rewrite lookup_insert_ne.
Qed.

Lemma foldl_insert_present (members : list (string * blob)) (e : gmap string blob) k v :
  NoDup members.*1 → (k, v) ∈ members →
  foldl (λ e m, <[m.1 := m.2]> e) e members !! k = Some v.
Proof.
  revert e. induction members as [|m members IH]; intros e Hnd Hin;
    [by apply elem_of_nil in Hin|].
  rewrite fmap_cons in Hnd. apply NoDup_cons in Hnd as [Hm Hnd].
  cbn [foldl]. apply elem_of_cons in Hin as [<-|Hin]; [|by apply IH].
  rewrite foldl_insert_absent by done. apply lookup_insert_eq.
Qed.

(** The bundle: each member of the outer archive is an archive of one
    file. *)
#[local] Abbreviation outer_members :=
  (fmap (λ b : string * (string * blob), (b.1, Archive [b.2]))).

Lemma remove_each_printed dir names st :
  printed (remove_each dir names st) =
  printed st ++ ((λ n, "Deleted: " +:+ dir +:+ "/" +:+ n) <$> names).
Proof.
  unfold remove_each. revert st. induction names as [|n names IH]; intros st.
  - cbn [foldl fmap list_fmap]. by rewrite app_nil_r.
  - cbn [foldl]. rewrite IH. simpl. by rewrite <- app_assoc.
Qed.

Lemma extract_each_bundle bundle dir files (d : gmap string (gmap string blob)) e :
  NoDup bundle.*1 → NoDup bundle.*2.*1 →
  Forall (λ b, matches_zip b.1 = true ∧ matches_zip b.2.1 = false) bundle →
  d !! dir = Some e →
  (∀ b, b ∈ bundle → e !! b.1 = Some (Archive [b.2])) →
  NoDup files → (∀ f, f ∈ files → f ∈ bundle.*1) →
  ∃ d' e',
    extract_each dir files d = (Return (), d') ∧ d' !! dir = Some e' ∧
    (∀ b, b ∈ bundle → b.1 ∈ files → e' !! b.2.1 = Some b.2.2) ∧
    (∀ k, (∀ b, b ∈ bundle → b.1 ∈ files → b.2.1 ≠ k) → e' !! k = e !! k).
Proof.
  intros Hzips Hfiles Hnames. revert d e.
  induction files as [|f files IH]; intros d e Hd Houter Hnd Hsub.
  - exists d, e. split; [done|]. split; [done|]. split; [|done].
    intros b _ Hin. by apply elem_of_nil in Hin.
  - apply NoDup_cons in Hnd as [Hf Hnd].
    destruct (list_elem_of_fmap_1 _ _ _ (Hsub f (list_elem_of_here _ _)))
      as (bf & -> & Hbf).
    cbn [extract_each]. unfold open_zip. rewrite Hd. simpl.
    rewrite (Houter bf Hbf).
    assert (∀ b, b ∈ bundle → b.1 ≠ bf.2.1) as Hdistinct.
    { intros b Hb Heq. rewrite Forall_forall in Hnames.
      destruct (Hnames b Hb) as [Hz _]. destruct (Hnames bf Hbf) as [_ Hnz].
      congruence. }
    destruct (IH (extractall [bf.2] dir d) (<[bf.2.1 := bf.2.2]> e))
      as (d' & e' & Hrun & Hd' & Hin' & Hout').
    { rewrite extractall_dir, Hd. done. }
    { intros b Hb. rewrite lookup_insert_ne by (symmetry; by apply Hdistinct).
      by apply Houter. }
    { done. }
    { intros f' Hf'. apply Hsub. by apply list_elem_of_further. }
    exists d', e'. split; [done|]. split; [done|]. split.
    + intros b Hb [Heq|Hin]%elem_of_cons; [|by apply Hin'].
      assert (b = bf) as -> by (by apply (NoDup_fmap_same fst bundle)).
      rewrite Hout'; [apply lookup_insert_eq|].
      intros b' Hb' Hin'' Hsame.
      assert (b' = bf) as ->.
      { apply (NoDup_fmap_same (λ b, b.2.1) bundle); try done.
        pose proof Hfiles as Hfiles'. rewrite <- list_fmap_compose in Hfiles'.
        exact Hfiles'. }
      done.
    + intros k Hk. rewrite Hout'.
      * apply lookup_insert_ne. apply Hk; [done|apply list_elem_of_here].
      * intros b Hb Hin. apply Hk; [done|by apply list_elem_of_further].
Qed.

(** The round trip of a bundle: for a plain product id, a directory that
    is not there yet (its parent is), and a download that is an archive of
    ZIP members with one file each (plain names; member names that [*.zip]
    matches, file names that it does not, no name twice), the attempt goes
    through; afterwards the directory holds exactly the inner files with
    their contents and one [Deleted:] line was printed for each member. *)
Theorem try_body_extracts_bundle product_id report_id st bundle later :
  plain_product_id product_id = true →
  plain_bundle (Archive (outer_members bundle)) = true →
  fs st !! save_dir product_id report_id = None →
  is_Some (fs st !! dirname (save_dir product_id report_id)) →
  replies st = Return (Archive (outer_members bundle)) :: later →
  NoDup bundle.*1 → NoDup bundle.*2.*1 →
  Forall (λ b, matches_zip b.1 = true ∧ matches_zip b.2.1 = false) bundle →
  ∃ st' entries lines,
    try_body product_id report_id st = (Return (), st') ∧
    fs st' !! save_dir product_id report_id = Some entries ∧
    (∀ k v, entries !! k = Some v ↔ (k, v) ∈ bundle.*2) ∧
    printed st' = printed st ++ lines ∧
    lines ≡ₚ (λ n, "Deleted: " +:+ save_dir product_id report_id +:+ "/" +:+ n)
             <$> bundle.*1.
Proof.
  intros _ _ Hnew Hparent Hr Hzips Hfiles Hnames.
  set (dir := save_dir product_id report_id) in *.
  assert (exists_ dir (fs st) = false) as Hexists.
  { unfold exists_. apply bool_decide_eq_false_2. rewrite Hnew. by intros [? ?]. }
  assert (exists_ (dirname dir) (fs st) = true) as Hpar.
  { unfold exists_. by apply bool_decide_eq_true_2. }
  unfold try_body, download_bundle. rewrite Hr. simpl. fold dir.
  rewrite Hexists. simpl. unfold mkdir. rewrite Hexists, Hpar. simpl.
  set (d2 := extractall (outer_members bundle) dir (<[dir := ∅]> (fs st))).
  set (outer := foldl (λ e m, <[m.1 := m.2]> e) (∅ : gmap string blob)
                  (outer_members bundle)).
  assert (d2 !! dir = Some outer) as Hd2.
  { unfold d2. by rewrite extractall_dir, lookup_insert_eq. }
  assert ((outer_members bundle).*1 = bundle.*1) as Hkeys.
  { rewrite <- list_fmap_compose. by apply list_fmap_ext. }
  assert (∀ b, b ∈ bundle → outer !! b.1 = Some (Archive [b.2])) as Houter.
  { intros b Hb. apply foldl_insert_present; [by rewrite Hkeys|].
    by apply (list_elem_of_fmap_2 (λ b : string * (string * blob), (b.1, Archive [b.2]))). }
  assert (∀ k, k ∉ bundle.*1 → outer !! k = None) as Hnot_outer.
  { intros k Hk. unfold outer. rewrite foldl_insert_absent by (by rewrite Hkeys).
    apply lookup_empty. }
  assert (∀ f, f ∈ listdir dir d2 ↔ f ∈ bundle.*1) as Hlist.
  { intros f. rewrite elem_of_listdir, Hd2. simpl. split.
    - intros Hsome. destruct (decide (f ∈ bundle.*1)) as [|Hn]; [done|].
      rewrite (Hnot_outer f Hn) in Hsome. by destruct Hsome.
    - intros (b & -> & Hb)%list_elem_of_fmap. rewrite (Houter b Hb). by eexists. }
  destruct (extract_each_bundle bundle dir (listdir dir d2) d2 outer)
    as (d3 & e3 & Hrun & Hd3 & Hin3 & Hout3); try done.
  { apply NoDup_fst_map_to_list. }
  { intros f. apply Hlist. }
  rewrite Hrun. simpl.
  assert (∀ b, b ∈ bundle → b.1 ∈ listdir dir d2) as Hall.
  { intros b Hb. apply Hlist. by apply list_elem_of_fmap_2. }
  assert (∀ b, b ∈ bundle → e3 !! b.2.1 = Some b.2.2) as Hfile.
  { intros b Hb. apply Hin3; [done|by apply Hall]. }
  assert (∀ k, k ∉ bundle.*2.*1 → e3 !! k = outer !! k) as Hrest.
  { intros k Hk. apply Hout3. intros b Hb _ <-. apply Hk.
    by do 2 apply list_elem_of_fmap_2. }
  assert (∀ k, k ∈ bundle.*1 → matches_zip k = true) as Hzip.
  { intros k (b & -> & Hb)%list_elem_of_fmap. rewrite Forall_forall in Hnames.
    by destruct (Hnames b Hb). }
  assert (∀ k, k ∈ bundle.*2.*1 → matches_zip k = false) as Hnozip.
  { intros k (f & -> & (b & -> & Hb)%list_elem_of_fmap)%list_elem_of_fmap.
    rewrite Forall_forall in Hnames. by destruct (Hnames b Hb). }
  assert (∀ n, n ∈ glob_zip dir d3 ↔ n ∈ bundle.*1) as Hglob.
  { intros n. unfold glob_zip. rewrite list_elem_of_filter, elem_of_listdir, Hd3.
    simpl. split.
    - intros [Hm Hsome]. destruct (decide (n ∈ bundle.*1)) as [|Hn]; [done|].
      assert (n ∉ bundle.*2.*1) as Hnf.
      { intros Hf. apply Hnozip in Hf. congruence. }
      rewrite (Hrest n Hnf), (Hnot_outer n Hn) in Hsome. by destruct Hsome.
    - intros Hn. split; [by apply Hzip|].
      assert (n ∉ bundle.*2.*1) as Hnf.
      { intros Hf. apply Hnozip in Hf. apply Hzip in Hn. congruence. }
      rewrite (Hrest n Hnf).
      apply list_elem_of_fmap in Hn as (b & -> & Hb). rewrite (Houter b Hb).
      by eexists. }
  eexists _, _, _. split; [reflexivity|].
  rewrite remove_each_fs, remove_each_printed. simpl.
  rewrite foldl_alter_delete, Hd3. simpl.
  split; [reflexivity|]. split; [|split; [reflexivity|]].
  - intros k v. rewrite foldl_delete_lookup. split.
    + destruct (decide (k ∈ glob_zip dir d3)) as [|Hng]; [done|].
      intros Hk. destruct (decide (k ∈ bundle.*2.*1)) as [Hf|Hnf].
      * apply list_elem_of_fmap in Hf as (f & -> & Hf).
        apply list_elem_of_fmap in Hf as (b & -> & Hb).
        rewrite (Hfile b Hb) in Hk. injection Hk as <-.
        rewrite <- surjective_pairing. by apply list_elem_of_fmap_2.
      * exfalso. rewrite (Hrest k Hnf) in Hk. apply Hng, Hglob.
        destruct (decide (k ∈ bundle.*1)) as [|Hn]; [done|].
        by rewrite (Hnot_outer k Hn) in Hk.
    + intros (b & Hkv & Hb)%list_elem_of_fmap.
      assert (k = b.2.1 ∧ v = b.2.2) as [-> ->] by (by rewrite <- Hkv).
      rewrite decide_False; [by apply Hfile|].
      intros Hg. apply Hglob, Hzip in Hg.
      assert (matches_zip b.2.1 = false); [|congruence].
      apply Hnozip. by do 2 apply list_elem_of_fmap_2.
  - apply fmap_Permutation. apply NoDup_Permutation; [|done|exact Hglob].
    unfold glob_zip, listdir. apply NoDup_filter, NoDup_fst_map_to_list.
Qed.

End archive_round_trip.

Section token_url.
Import Ercot.

(** The user name and the password reach the token URL percent-encoded:
    what stands for them in the query string consists of letters, digits
    and [_.-~+%] only, so no [&], [=], [#] or space of theirs can add to or
    cut short the form fields; a user name or password of safe characters
    stands there unchanged. *)
Theorem authenticate_url_encodes_credentials username password c :
  ∃ r user pass rest,
    sent_since c (authenticate username password c).2 = [r] ∧
    req_url r = token_url (config c) +:+ "?username=" +:+ user +:+
                "&password=" +:+ pass +:+ "&grant_type=password&scope=" +:+ rest ∧
    PathSpec.all_chars (λ c, always_safe c || Ascii.eqb c "+" || Ascii.eqb c "%")
      user = true ∧
    PathSpec.all_chars (λ c, always_safe c || Ascii.eqb c "+" || Ascii.eqb c "%")
      pass = true ∧
    (PathSpec.all_chars always_safe username = true → user = username) ∧
    (PathSpec.all_chars always_safe password = true → pass = password).
Proof.
  assert (∃ r, sent_since c (authenticate username password c).2 = [r] ∧
               req_url r = token_url (config c) +:+ "?" +:+
                 join "&" ["username=" +:+ quote_plus username;
                           "password=" +:+ quote_plus password;
                           "grant_type=password";
                           "scope=" +:+ quote_plus (scope (config c));
                           "client_id=" +:+ quote_plus (client_id (config c));
                           "response_type=id_token"]) as (r & Hsent & Hurl).
  { unfold authenticate, send, sent_since.
    destruct (responses (_session c)) as [|[resp|] later]; simpl.
    - eexists. rewrite drop_app_length. by split.
    - destruct (raises_for_status (status_code resp)); simpl;
        [eexists; rewrite drop_app_length; by split|].
      destruct (json resp) as [data|]; simpl;
        [|eexists; rewrite drop_app_length; by split].
      destruct (negb (truthy (id_token data))); simpl;
        eexists; rewrite drop_app_length; by split.
    - eexists. rewrite drop_app_length. by split. }
  exists r, (quote_plus username), (quote_plus password),
    (quote_plus (scope (config c)) +:+ "&client_id=" +:+
     quote_plus (client_id (config c)) +:+ "&response_type=id_token").
  split; [exact Hsent|]. split.
  - rewrite Hurl. cbn [join]. by rewrite !append_assoc.
  - split; [apply quote_plus_writes_safe_characters|].
    split; [apply quote_plus_writes_safe_characters|].
    split; apply quote_plus_keeps_safe_text.
Qed.

End token_url.

(** ** The further properties at work *)

(** An unknown argument stops [call] before the session sees anything. *)
Lemma call_sends_at_most_once_witness :
  let s := Examples.pubapi_session [Some Examples.ok] in
  ∃ e, PubApi.call {[ "getVersion" := Examples.get_version_op ]}
         (Examples.pubapi_config None false) "getVersion"
         {[ "verbose" := PBool true ]} s = Some (Raise e, s).
Proof.
  intros s.
  assert (∃ out, PubApi.call {[ "getVersion" := Examples.get_version_op ]}
            (Examples.pubapi_config None false) "getVersion"
            {[ "verbose" := PBool true ]} s = Some (out, s)) as [out Hcall]
    by (eexists; vm_compute; reflexivity).
  destruct (call_sends_at_most_once _ _ _ _ _ _ _ Hcall) as [[_ [e ->]]|(r & Hreq & _)].
  - by exists e.
  - exfalso. apply (f_equal length) in Hreq. rewrite length_app in Hreq.
    simpl in Hreq. lia.
Defined.

(** Two stray arguments next to a declared one. *)
Lemma call_lists_every_unexpected_argument_witness :
  ∃ names,
    PubApi.call {[ "getArchive" := Examples.get_archive_op ]}
      (Examples.pubapi_config None false) "getArchive"
      {[ "emilId" := PStr "NP4-33-CD"; "zeta" := PInt 1; "alpha" := PNone ]}
      (Examples.pubapi_session [])
    = Some (Raise (ValueError ("Unexpected parameters for getArchive: " +:+
                               join ", " names)),
            Examples.pubapi_session []) ∧
    ("alpha" ∈ names ∧ "zeta" ∈ names ∧ "emilId" ∉ names).
Proof.
  assert (({[ "getArchive" := Examples.get_archive_op ]}
             : gmap string PubApi.operation) !! "getArchive"
          = Some Examples.get_archive_op) as Hop by (vm_compute; reflexivity).
  pose proof (call_lists_every_unexpected_argument _
                (Examples.pubapi_config None false) _ _
                {[ "emilId" := PStr "NP4-33-CD"; "zeta" := PInt 1; "alpha" := PNone ]}
                (Examples.pubapi_session []) Hop) as Hthm.
  destruct Hthm as (names & Hcall & _ & _ & Hmem).
  - intros n Hn. apply elem_of_names_in in Hn as (p & Hp & <- & _).
    apply list_elem_of_singleton in Hp as ->. eexists. vm_compute. reflexivity.
  - intros Hempty. apply (f_equal (λ m : gmap string pyval, m !! "zeta")) in Hempty.
    vm_compute in Hempty. discriminate Hempty.
  - exists names. split; [exact Hcall|]. clear Hcall. split; [|split].
    + apply Hmem. eexists. vm_compute. reflexivity.
    + apply Hmem. eexists. vm_compute. reflexivity.
    + intros Hin. apply Hmem in Hin as [v Hv]. vm_compute in Hv. discriminate Hv.
Defined.

(** A query argument on its way to the request. *)
Lemma call_forwards_declared_arguments_witness :
  ∃ r, PubApi.call {[ "getPart" := Examples.get_part ]}
         (Examples.pubapi_config (Some "abc123") false) "getPart"
         {[ "productId" := PStr "np4"; "docId" := PInt 7; "part" := PInt 1;
            "page" := PInt 2 ]}
         (Examples.pubapi_session [Some Examples.ok])
       = Some (Return Examples.ok,
               {| PubApi.requests := [r]; PubApi.responses := [] |}) ∧
       PubApi.req_method r = "GET" ∧
       PubApi.req_params r = {[ "page" := PInt 2 ]}.
Proof.
  assert (({[ "getPart" := Examples.get_part ]}
             : gmap string PubApi.operation) !! "getPart"
          = Some Examples.get_part) as Hop by (vm_compute; reflexivity).
  eexists. split; [vm_compute; reflexivity|].
  match goal with |- PubApi.req_method ?r = _ ∧ _ =>
    assert (r ∈ PubApi.sent_since (Examples.pubapi_session [Some Examples.ok])
                  {| PubApi.requests := [r]; PubApi.responses := [] |}) as Hr
      by apply list_elem_of_here;
    assert (PubApi.call {[ "getPart" := Examples.get_part ]}
              (Examples.pubapi_config (Some "abc123") false) "getPart"
              {[ "productId" := PStr "np4"; "docId" := PInt 7; "part" := PInt 1;
                 "page" := PInt 2 ]}
              (Examples.pubapi_session [Some Examples.ok])
            = Some (Return Examples.ok,
                    {| PubApi.requests := [r]; PubApi.responses := [] |})) as Hcall
      by (vm_compute; reflexivity)
  end.
  destruct (call_forwards_declared_arguments _ _ _ _ _ _ _ _ _ Hop Hcall Hr)
    as (Hm & Hp & _).
  split; [exact Hm|]. etrans; [exact Hp|]. vm_compute. reflexivity.
Defined.

(** [/archive/{emilId}/{docId}] with only [emilId] declared. *)
Lemma call_undeclared_placeholder_witness :
  ∃ e, PubApi.call {[ "getDocument" := Examples.get_document_op ]}
         (Examples.pubapi_config None false) "getDocument"
         {[ "emilId" := PStr "NP4-33-CD" ]}
         (Examples.pubapi_session [Some Examples.ok])
       = Some (Raise e, Examples.pubapi_session [Some Examples.ok]).
Proof.
  apply (call_undeclared_placeholder _ _ _ Examples.get_document_op _ _
           [PathSpec.Lit "/archive/"; PathSpec.Field "emilId"; PathSpec.Lit "/";
            PathSpec.Field "docId"] "docId").
  - vm_compute. reflexivity.
  - reflexivity.
  - repeat constructor.
  - do 3 apply list_elem_of_further. apply list_elem_of_here.
  - intros Hin. apply elem_of_names_in in Hin as (p & Hp & Hname & _).
    apply list_elem_of_singleton in Hp as ->. discriminate Hname.
Defined.

(** The sample document: two operations are indexed, the [x-] key and the
    operation without id are passed over. *)
Lemma index_operations_holds_the_identified_witness :
  ∃ operations,
    PubApi._index_operations Examples.sample_paths = Some operations ∧
    PubApi.list_operations operations = ["getArchive"; "getVersion"] ∧
    operations !! "getArchive" = Some Examples.get_archive_op.
Proof.
  eexists. split; [vm_compute; reflexivity|].
  split; [vm_compute; reflexivity|].
  match goal with |- ?ops !! _ = _ =>
    assert (PubApi._index_operations Examples.sample_paths = Some ops) as Hrun
      by (vm_compute; reflexivity);
    destruct (proj2 (index_operations_holds_the_identified _ _ Hrun)
                "/archive/{emilId}"
                [ ("get", PubApi.OperationObject (Some "getArchive")
                            (Some [ {| PubApi.name := "emilId";
                                       PubApi.in_ := Some "path"; PubApi.required := true |} ]) false);
                  ("post", PubApi.OperationObject None None true) ]
                "getArchive" Examples.get_archive_op) as [op Hop]
  end.
  - apply list_elem_of_further, list_elem_of_here.
  - eexists "get", _, _. split; [apply list_elem_of_here|].
    split; [reflexivity|]. split; [discriminate|reflexivity].
  - vm_compute. reflexivity.
Defined.

(** The second page request fails with HTTP 500. *)
Lemma iter_report_pages_ends_with_the_error_witness :
  let run := Ercot.iter_report_pages "/rpt" None 1 None
               [Return (Examples.page_of 3 0); Raise (HTTPError 500)] in
  Ercot.yielded run = [Examples.page_of 3 0] ∧
  length (Ercot.asked run) = 2%nat ∧
  Ercot.ending run = Raise (HTTPError 500).
Proof.
  intros run.
  destruct (iter_report_pages_ends_with_the_error "/rpt" None 1 None
              [Examples.page_of 3 0] (HTTPError 500) [])
    as (Hy & Ha & He).
  - vm_compute. lia.
  - split; [exact Hy|]. split; [|exact He].
    etrans; [exact (f_equal length Ha)|]. reflexivity.
Defined.

(** A bundle for document 7, extracted into a directory that was not
    there: the two [.zip] members are gone, their files are there. *)
Lemma try_body_leaves_no_zip_witness :
  let st := Examples.sync_start (Examples.disk_with "p" [])
              [Return Examples.bundle_zip] in
  ∃ st', Ercot.try_body "p" 7 st = (Return (), st') ∧
         Forall (λ n, Ercot.matches_zip n = false)
                (Ercot.listdir (Ercot.save_dir "p" 7) (Ercot.fs st')) ∧
         Ercot.listdir (Ercot.save_dir "p" 7) (Ercot.fs st') = ["a.csv"; "b.csv"].
Proof.
  intros st. exists (Ercot.try_body "p" 7 st).2.
  assert (Ercot.try_body "p" 7 st = (Return (), (Ercot.try_body "p" 7 st).2)) as Hrun
    by (vm_compute; reflexivity).
  split; [exact Hrun|]. split; [|vm_compute; reflexivity].
  apply (try_body_leaves_no_zip "p" 7 Examples.bundle_zip [] st _);
    [reflexivity|reflexivity|vm_compute; reflexivity|exact Hrun|].
  vm_compute. reflexivity.
Defined.

Lemma try_body_extracts_bundle_witness :
  let st := Examples.sync_start (Examples.disk_with "p" [])
              [Return Examples.bundle_zip] in
  ∃ st' entries,
    Ercot.try_body "p" 7 st = (Return (), st') ∧
    Ercot.fs st' !! Ercot.save_dir "p" 7 = Some entries ∧
    entries !! "a.csv" = Some (Ercot.Raw "1") ∧
    entries !! "a.zip" = None.
Proof.
  intros st.
  destruct (try_body_extracts_bundle "p" 7 st
              [("a.zip", ("a.csv", Ercot.Raw "1")); ("b.zip", ("b.csv", Ercot.Raw "2"))] [])
    as (st' & entries & lines & Hrun & Hdir & Hentries & _).
  - reflexivity.
  - vm_compute. reflexivity.
  - vm_compute. reflexivity.
  - eexists. vm_compute. reflexivity.
  - reflexivity.
  - apply (bool_decide_unpack _). vm_compute. exact I.
  - apply (bool_decide_unpack _). vm_compute. exact I.
  - repeat constructor.
  - exists st', entries. split; [exact Hrun|]. split; [exact Hdir|]. split.
    + apply Hentries. apply list_elem_of_here.
    + destruct (entries !! "a.zip") as [v|] eqn:Hv; [|reflexivity].
      exfalso. apply Hentries in Hv.
      repeat (apply elem_of_cons in Hv as [Hv|Hv]; [discriminate Hv|]).
      by apply elem_of_nil in Hv.
Defined.

(** Documents 7 and 8 are synchronised; the directory of document 9, there
    before, is as it was. *)
Lemma update_archive_touches_only_destinations_witness :
  let st := Examples.sync_start (Examples.disk_with "p" [9])
              [Return Examples.bundle_zip; Raise ConnectionError] in
  ∃ out st',
    Ercot.update_archive "p" (Return (Examples.bundle_listing [7; 8])) st
      = Some (out, st') ∧
    Ercot.fs st' !! Ercot.save_dir "p" 9 = Some {["report.csv" := Ercot.Raw "done"]}.
Proof.
  intros st.
  set (run := Ercot.update_archive "p" (Return (Examples.bundle_listing [7; 8])) st).
  assert (run = Some (Return (), default st (snd <$> run))) as Hrun
    by (vm_compute; reflexivity).
  exists (Return ()), (default st (snd <$> run)). split; [exact Hrun|].
  assert (∀ zip, Return zip ∈ Ercot.replies st → Ercot.plain_bundle zip = true)
    as Hplain.
  { intros zip Hin. apply elem_of_cons in Hin as [[= ->]|Hin];
      [vm_compute; reflexivity|].
    apply list_elem_of_singleton in Hin. discriminate Hin. }
  rewrite (update_archive_touches_only_destinations "p"
             (Examples.bundle_listing [7; 8]) [7; 8] st _ _
             (Ercot.save_dir "p" 9) eq_refl Hplain eq_refl Hrun).
  - vm_compute. reflexivity.
  - intros id Hid Heq.
    repeat (apply elem_of_cons in Hid as [->|Hid]; [vm_compute in Heq; discriminate Heq|]).
    by apply elem_of_nil in Hid.
Defined.

(** Bytes that are no archive for document 7, then any answer. *)
Lemma bad_download_marks_item_done_witness :
  let st := Examples.sync_start (Examples.disk_with "p" [])
              [Return (Ercot.Raw "<html>busy</html>"); Return Examples.bundle_zip] in
  ∃ st', Ercot.while_not_done 4 3 0 "p" 7 st = Some (true, st') ∧
         Ercot.fs st' !! Ercot.save_dir "p" 7 = Some ∅ ∧
         Ercot.printed st' = ["retrying"; "7 already exist"].
Proof.
  intros st. eexists. split.
  - apply (bad_download_marks_item_done "p" 7 st "<html>busy</html>"
             Examples.bundle_zip []).
    + vm_compute. reflexivity.
    + eexists. vm_compute. reflexivity.
    + reflexivity.
  - split; [|reflexivity]. simpl. apply lookup_insert_eq.
Defined.
